(** * 3kingdoms: the portrait-sheet splitter and the narration service

    A shallow embedding of [scripts/split_portrait_sheet.py] and of the
    [/narrate] handler of [services/ai/app.py], followed by the properties
    the design document states about them.

    Python integers are [Z]; [//] is [Z.div] (both round towards minus
    infinity) with the division by zero written out; [^], [|], [<<] are
    [Z.lxor], [Z.lor], [Z.shiftl].  Exceptions are values of [PyExn].
    The set of used names is a [gset string], the preset dictionary a
    [gmap (Z * Z) (option string)].

    Pillow is not part of the repository.  A tile is represented by what
    the script asks Pillow about it: the luminance band of
    [tile.convert("L")] and the pixels of that band after the Lanczos
    resize.  [ImageStat.Stat] is modelled in exact rational arithmetic in
    place of binary64. *)

From Stdlib Require Import ZArith QArith Qreals Reals Lia Lra Psatz.
From Stdlib Require Import String Ascii List.
From stdpp Require Import gmap strings pretty.
Import ListNotations.

Local Open Scope string_scope.
Local Open Scope list_scope.
Local Open Scope Z_scope.

(** ** Python preliminaries *)

Module Py.

Inductive PyExn : Type :=
  | ZeroDivisionError
  | IndexError
  | ValueError
  | OSError.

Inductive PyResult (A : Type) : Type :=
  | Ok (a : A)
  | Raise (e : PyExn).
Arguments Ok {A} a.
Arguments Raise {A} e.

Definition bind {A B} (m : PyResult A) (k : A -> PyResult B) : PyResult B :=
  match m with
  | Ok a => k a
  | Raise e => Raise e
  end.

Notation "x <- m ;; k" := (bind m (fun x => k))
  (at level 100, m at next level, right associativity).

(** [range(n)]: empty when [n <= 0]. *)
Definition range (n : Z) : list Z := map Z.of_nat (seq 0 (Z.to_nat n)).

(** [for i in l: s = body(i, s)], stopping at the first exception. *)
Fixpoint for_each {S : Type} (l : list Z) (body : Z -> S -> PyResult S) (s : S)
  : PyResult S :=
  match l with
  | [] => Ok s
  | i :: l' =>
      match body i s with
      | Ok s' => for_each l' body s'
      | Raise e => Raise e
      end
  end.

(** [l[i]] on a list: negative indices count from the end, anything outside
    raises [IndexError]. *)
Definition getitem {A} (l : list A) (i : Z) : PyResult A :=
  let n := Z.of_nat (length l) in
  let j := if i <? 0 then i + n else i in
  if (j <? 0) || (n <=? j) then Raise IndexError
  else match nth_error l (Z.to_nat j) with
       | Some a => Ok a
       | None => Raise IndexError
       end.

(** [a // b]. *)
Definition floordiv (a b : Z) : PyResult Z :=
  if b =? 0 then Raise ZeroDivisionError else Ok (a / b).

(** [int.bit_count()]: the number of ones in the binary writing of [|n|]. *)
Fixpoint pos_bit_count (p : positive) : Z :=
  match p with
  | xH => 1
  | xO q => pos_bit_count q
  | xI q => 1 + pos_bit_count q
  end.

Definition bit_count (n : Z) : Z :=
  match n with
  | Z0 => 0
  | Zpos p => pos_bit_count p
  | Zneg p => pos_bit_count p
  end.

(** [f"{n:02d}"]: the decimal writing, filled with zeros on the left up to
    two characters (a minus sign counts as a character). *)
Definition format_02d (n : Z) : string :=
  let s := pretty n in
  if (String.length s <? 2)%nat then "0" +:+ s else s.

End Py.
Import Py.

(** ** scripts/split_portrait_sheet.py *)

Module Split.

(** What the script observes of a Pillow image. *)
Record Tile : Type := mkTile {
  (** [list(tile.convert("L").getdata())] *)
  gray : list Z;
  (** [list(tile.convert("L").resize((w, h), Image.Resampling.LANCZOS).getdata())] *)
  gray_resized : Z -> Z -> list Z;
}.

(** [dhash], lines 44-58.  The loop state is [(bits, bit_idx)]. *)
Definition dhash_inner (pixels : list Z) (row : Z) (x : Z) (s : Z * Z)
  : PyResult (Z * Z) :=
  let '(bits, bit_idx) := s in
  left <- getitem pixels (row + x) ;;
  right <- getitem pixels (row + x + 1) ;;
  let bits := if left >? right then Z.lor bits (Z.shiftl 1 bit_idx) else bits in
  Ok (bits, bit_idx + 1).

Definition dhash_row (pixels : list Z) (size : Z) (y : Z) (s : Z * Z)
  : PyResult (Z * Z) :=
  let row := y * (size + 1) in
  for_each (range size) (dhash_inner pixels row) s.

Definition dhash_pixels (pixels : list Z) (size : Z) : PyResult Z :=
  s <- for_each (range size) (dhash_row pixels size) (0, 0) ;;
  Ok (fst s).

Definition dhash (tile : Tile) (size : Z) : PyResult Z :=
  dhash_pixels (gray_resized tile (size + 1) size) size.

(** [hamming_distance], lines 61-62. *)
Definition hamming_distance (a b : Z) : Z := bit_count (Z.lxor a b).

(** [ImageStat.Stat] of a one-band image: [count], [sum] and [sum2] of
    band 0, from which [mean = sum / count],
    [var = (sum2 - sum ** 2 / n) / n] and [stddev = sqrt(var)] are derived
    on demand. *)
Record Stat : Type := mkStat {
  count : Z;
  sum : Z;
  sum2 : Z;
}.

Definition ImageStat_Stat (band : list Z) : Stat :=
  {| count := Z.of_nat (length band);
     sum := fold_right Z.add 0 band;
     sum2 := fold_right (fun v acc => v * v + acc) 0 band |}.

Definition Qlt_bool (x y : Q) : bool := negb (Qle_bool y x).

Definition Stat_mean (st : Stat) : PyResult Q :=
  if count st =? 0 then Raise ZeroDivisionError
  else Ok (inject_Z (sum st) / inject_Z (count st))%Q.

Definition Stat_var (st : Stat) : PyResult Q :=
  if count st =? 0 then Raise ZeroDivisionError
  else
    let n := inject_Z (count st) in
    Ok ((inject_Z (sum2 st) - (inject_Z (sum st) * inject_Z (sum st)) / n) / n)%Q.

(** [stat.stddev[0] < t], that is [sqrt(var) < t], decided inside [Q]:
    for [0 <= var] it holds exactly when [0 < t] and [var < t * t]. *)
Definition Stat_stddev_lt (st : Stat) (t : Q) : PyResult bool :=
  v <- Stat_var st ;;
  Ok (Qlt_bool 0 t && Qlt_bool v (t * t)).

(** [is_empty_tile], lines 37-41; [and] evaluates its right operand only
    when the left one is true. *)
Definition is_empty_tile (tile : Tile) (threshold : Q) : PyResult bool :=
  let stat := ImageStat_Stat (gray tile) in
  flat <- Stat_stddev_lt stat threshold ;;
  if flat then
    m <- Stat_mean stat ;;
    Ok (Qlt_bool m 40)
  else Ok false.

(** [OFFICER_PRESET_4X6], lines 9-34. *)
Definition OFFICER_PRESET_4X6 : gmap (Z * Z) (option string) :=
  list_to_map [
    ((1, 1), Some "dong_zhuo");
    ((1, 2), Some "lu_bu");
    ((1, 3), Some "li_ru");
    ((1, 4), Some "hua_xiong");
    ((1, 5), Some "cao_cao");
    ((1, 6), Some "xun_yu");
    ((2, 1), Some "xiahou_dun");
    ((2, 2), Some "xiahou_yuan");
    ((2, 3), Some "zhao_yun");
    ((2, 4), Some "liu_bei");
    ((2, 5), Some "guan_yu");
    ((2, 6), None);
    ((3, 1), Some "zhang_fei");
    ((3, 2), Some "sun_jian");
    ((3, 3), Some "huang_gai");
    ((3, 4), Some "cheng_pu");
    ((3, 5), Some "yuan_shao");
    ((3, 6), None);
    ((4, 1), Some "yan_liang");
    ((4, 2), Some "wen_chou");
    ((4, 3), Some "yuan_shu");
    ((4, 4), Some "ji_ling");
    ((4, 5), Some "diaochan");
    ((4, 6), Some "player_default")
  ].

(** The [--preset] choices. *)
Inductive Preset : Type :=
  | preset_none
  | preset_officers_4x6.

(** The parsed command line, lines 66-83.  The paths [input] and [out_dir]
    only reach the outside world, which [Env] stands for. *)
Record Args : Type := mkArgs {
  rows : Z;
  cols : Z;
  margin : Z;
  gap : Z;
  prefix : string;
  empty_threshold : Q;
  no_dedupe : bool;
  dedupe_hamming : Z;
  preset : Preset;
}.

Definition Box : Type := (Z * Z * Z * Z)%type.

(** The opened sheet: its size and Pillow's answer to [img.crop(box)]. *)
Record Sheet : Type := mkSheet {
  width : Z;
  height : Z;
  crop : Box -> PyResult Tile;
}.

(** The outside world of one run: [Image.open(args.input).convert("RGBA")],
    [args.out_dir.mkdir(...)] and [tile.save(out_dir / f"{filename}.png")],
    the last one keyed by [filename]. *)
Record Env : Type := mkEnv {
  open_image : PyResult Sheet;
  mkdir : PyResult unit;
  save : string -> Tile -> PyResult unit;
}.

(** The local variables of [main], lines 93-98, and a record of the calls
    made to Pillow so far: the boxes passed to [crop] and the names passed
    to [save], oldest first, whether the call returned or raised. *)
Record State : Type := mkState {
  written : Z;
  kept_hashes : list Z;
  skipped_empty : Z;
  skipped_duplicate : Z;
  skipped_by_preset : Z;
  used_names : gset string;
  crop_calls : list Box;
  save_calls : list string;
}.

Definition initial_state : State :=
  {| written := 0; kept_hashes := []; skipped_empty := 0;
     skipped_duplicate := 0; skipped_by_preset := 0; used_names := ∅;
     crop_calls := []; save_calls := [] |}.

(** How a run ends: normally, or with an exception that nothing catches,
    together with the state reached at that point. *)
Inductive Outcome : Type :=
  | Done (st : State)
  | Raised (e : PyExn) (st : State).

Definition final_state (o : Outcome) : State :=
  match o with
  | Done st => st
  | Raised _ st => st
  end.

Fixpoint for_state (l : list Z) (body : Z -> State -> Outcome) (st : State)
  : Outcome :=
  match l with
  | [] => Done st
  | i :: l' =>
      match body i st with
      | Done st' => for_state l' body st'
      | Raised e st' => Raised e st'
      end
  end.

Definition incr_skipped_by_preset (st : State) : State :=
  {| written := written st; kept_hashes := kept_hashes st;
     skipped_empty := skipped_empty st;
     skipped_duplicate := skipped_duplicate st;
     skipped_by_preset := skipped_by_preset st + 1;
     used_names := used_names st;
     crop_calls := crop_calls st; save_calls := save_calls st |}.

Definition incr_skipped_empty (st : State) : State :=
  {| written := written st; kept_hashes := kept_hashes st;
     skipped_empty := skipped_empty st + 1;
     skipped_duplicate := skipped_duplicate st;
     skipped_by_preset := skipped_by_preset st;
     used_names := used_names st;
     crop_calls := crop_calls st; save_calls := save_calls st |}.

Definition incr_skipped_duplicate (st : State) : State :=
  {| written := written st; kept_hashes := kept_hashes st;
     skipped_empty := skipped_empty st;
     skipped_duplicate := skipped_duplicate st + 1;
     skipped_by_preset := skipped_by_preset st;
     used_names := used_names st;
     crop_calls := crop_calls st; save_calls := save_calls st |}.

Definition note_crop (box : Box) (st : State) : State :=
  {| written := written st; kept_hashes := kept_hashes st;
     skipped_empty := skipped_empty st;
     skipped_duplicate := skipped_duplicate st;
     skipped_by_preset := skipped_by_preset st;
     used_names := used_names st;
     crop_calls := crop_calls st ++ [box]; save_calls := save_calls st |}.

Definition note_save (filename : string) (st : State) : State :=
  {| written := written st; kept_hashes := kept_hashes st;
     skipped_empty := skipped_empty st;
     skipped_duplicate := skipped_duplicate st;
     skipped_by_preset := skipped_by_preset st;
     used_names := used_names st;
     crop_calls := crop_calls st; save_calls := save_calls st ++ [filename] |}.

(** Lines 132-134. *)
Definition record_written (tile_hash : Z) (filename : string) (st : State) : State :=
  {| written := written st + 1;
     kept_hashes := kept_hashes st ++ [tile_hash];
     skipped_empty := skipped_empty st;
     skipped_duplicate := skipped_duplicate st;
     skipped_by_preset := skipped_by_preset st;
     used_names := used_names st ∪ {[ filename ]};
     crop_calls := crop_calls st; save_calls := save_calls st |}.

(** Lines 103-111: [None] stands for [continue], [Some mapped_name] for
    falling through with that value of [mapped_name]. *)
Definition preset_lookup (p : Preset) (row col : Z) : option (option string) :=
  match p with
  | preset_none => Some None
  | preset_officers_4x6 =>
      match OFFICER_PRESET_4X6 !! (row, col) with
      | None => None
      | Some None => None
      | Some (Some name) => Some (Some name)
      end
  end.

(** The generator of line 119. *)
Definition any_within (tile_hash : Z) (threshold : Z) (kept : list Z) : bool :=
  existsb (fun h => hamming_distance tile_hash h <=? threshold) kept.

(** The condition of line 119. *)
Definition is_duplicate (args : Args) (tile_hash : Z) (kept : list Z) : bool :=
  negb (no_dedupe args) && any_within tile_hash (dedupe_hamming args) kept.

(** Lines 122-126; the empty string is as false as [None]. *)
Definition resolve_filename (args : Args) (mapped_name : option string) (r c : Z)
  : string :=
  match mapped_name with
  | Some (String a s) => String a s
  | _ =>
      let idx := (r * cols args) + c + 1 in
      prefix args +:+ "_" +:+ format_02d idx
  end.

Definition cell_box (args : Args) (cell_w cell_h r c : Z) : Box :=
  let x := margin args + c * (cell_w + gap args) in
  let y := margin args + r * (cell_h + gap args) in
  (x, y, x + cell_w, y + cell_h).

(** The body of the inner loop, lines 101-134. *)
Definition cell_body (args : Args) (env : Env) (img : Sheet) (cell_w cell_h : Z)
    (r c : Z) (st : State) : Outcome :=
  let row := r + 1 in
  let col := c + 1 in
  match preset_lookup (preset args) row col with
  | None => Done (incr_skipped_by_preset st)
  | Some mapped_name =>
      let box := cell_box args cell_w cell_h r c in
      let st := note_crop box st in
      match crop img box with
      | Raise e => Raised e st
      | Ok tile =>
      match is_empty_tile tile (empty_threshold args) with
      | Raise e => Raised e st
      | Ok true => Done (incr_skipped_empty st)
      | Ok false =>
      match dhash tile 8 with
      | Raise e => Raised e st
      | Ok tile_hash =>
      if is_duplicate args tile_hash (kept_hashes st)
      then Done (incr_skipped_duplicate st)
      else
        let filename := resolve_filename args mapped_name r c in
        if bool_decide (filename ∈ used_names st)
        then Done (incr_skipped_by_preset st)
        else
          let st := note_save filename st in
          match save env filename tile with
          | Raise e => Raised e st
          | Ok _ => Done (record_written tile_hash filename st)
          end
      end end end
  end.

(** The two loops, lines 99-100. *)
Definition main_loop (args : Args) (env : Env) (img : Sheet) (cell_w cell_h : Z)
    (st : State) : Outcome :=
  for_state (range (rows args))
    (fun r => for_state (range (cols args))
                (fun c => cell_body args env img cell_w cell_h r c))
    st.

(** The right-hand sides of lines 88 and 89. *)
Definition cell_extent (total n margin gap : Z) : PyResult Z :=
  floordiv (total - (2 * margin) - ((n - 1) * gap)) n.

(** [main] after argument parsing, lines 85-134.  The summary printed at
    lines 136-140 is read off the final state. *)
Definition main (args : Args) (env : Env) : Outcome :=
  match open_image env with
  | Raise e => Raised e initial_state
  | Ok img =>
  match cell_extent (width img) (cols args) (margin args) (gap args) with
  | Raise e => Raised e initial_state
  | Ok cell_w =>
  match cell_extent (height img) (rows args) (margin args) (gap args) with
  | Raise e => Raised e initial_state
  | Ok cell_h =>
  match mkdir env with
  | Raise e => Raised e initial_state
  | Ok _ => main_loop args env img cell_w cell_h initial_state
  end end end end.

(** The defaults of the command line. *)
Definition default_args : Args :=
  {| rows := 4; cols := 7; margin := 12; gap := 14; prefix := "portrait";
     empty_threshold := 2; no_dedupe := false; dedupe_hamming := 5;
     preset := preset_none |}.

End Split.

(** ** services/ai/app.py *)

Module AiApp.

(** Python [str] values are kept as their UTF-8 bytes.  [chars] cuts such a
    string into its characters: a byte [10xxxxxx] continues the character
    begun before it. *)
Definition byte_of (a : ascii) : Z := Z.of_N (N_of_ascii a).

Definition is_continuation (a : ascii) : bool :=
  (128 <=? byte_of a) && (byte_of a <=? 191).

Fixpoint chars (s : string) : list string :=
  match s with
  | EmptyString => []
  | String a rest =>
      match chars rest with
      | String b c :: cs =>
          if is_continuation b then String a (String b c) :: cs
          else String a EmptyString :: String b c :: cs
      | cs => String a EmptyString :: cs
      end
  end.

Definition of_bytes (l : list Z) : string :=
  fold_right (fun b s => String (ascii_of_N (Z.to_N b)) s) EmptyString l.

(** The characters [str.isspace] accepts: U+0009..U+000D, U+001C..U+0020,
    U+0085, U+00A0, U+1680, U+2000..U+200A, U+2028, U+2029, U+202F, U+205F
    and U+3000. *)
Definition is_space (c : string) : bool :=
  match map byte_of (list_ascii_of_string c) with
  | [b] => ((9 <=? b) && (b <=? 13)) || ((28 <=? b) && (b <=? 32))
  | [194; b] => (b =? 133) || (b =? 160)
  | [225; 154; 128] => true
  | [226; 128; b] =>
      ((128 <=? b) && (b <=? 138)) || (b =? 168) || (b =? 169) || (b =? 175)
  | [226; 129; 159] => true
  | [227; 128; 128] => true
  | _ => false
  end.

Fixpoint drop_spaces (cs : list string) : list string :=
  match cs with
  | c :: cs' => if is_space c then drop_spaces cs' else cs
  | [] => []
  end.

(** [s.strip()] *)
Definition strip (s : string) : string :=
  String.concat "" (rev (drop_spaces (rev (drop_spaces (chars s))))).

(** [s[:n]] *)
Definition take_chars (n : nat) (s : string) : string :=
  String.concat "" (firstn n (chars s)).

(** [s.startswith(p)] *)
Definition startswith (s p : string) : bool := String.prefix p s.

(** [x or d] for an optional string: [None] and the empty string are false. *)
Definition str_or (x : option string) (d : string) : string :=
  match x with
  | Some (String a s) => String a s
  | _ => d
  end.

(** A value found in a lore dictionary, as far as the handler looks at it:
    its truth value and its [str()]. *)
Record PyValue : Type := mkPyValue {
  truthy : bool;
  str : string;
}.

(** [str(v or "")] for the result of [dict.get]. *)
Definition str_of_get (v : option PyValue) : string :=
  match v with
  | Some x => if truthy x then str x else ""
  | None => ""
  end.

(** [NarrativeInput], lines 13-29, after validation. *)
Record NarrativeInput : Type := mkNarrativeInput {
  actor : string;
  action : string;
  result : string;
  mood : string;
  actor_role : string;
  target : option string;
  perspective : string;
  forbid_phrases : option (list string);
  objective : option string;
  time : option string;
  location : option string;
  lore : option (list (gmap string PyValue));
}.

(** The module-level settings, lines 8-10. *)
Record Config : Type := mkConfig {
  OPENAI_API_KEY : string;
  OPENAI_MODEL : string;
  OPENAI_BASE_URL : string;
}.

(** The keyword arguments the [OpenAI] client is built from, lines 48-50. *)
Record Client : Type := mkClient {
  api_key : string;
  base_url : option string;
}.

Record Message : Type := mkMessage {
  role : string;
  content : string;
}.

(** A completion, as far as line 113 reads it: the [message.content] of
    each choice. *)
Record Completion : Type := mkCompletion {
  choices : list (option string);
}.

(** [client.chat.completions.create(model=..., messages=..., temperature=0.7)]:
    the answer of the backing service, or the exception it ends with. *)
Definition Backend : Type := Client -> string -> list Message -> PyResult Completion.

Record Response : Type := mkResponse {
  text : string;
  provider : string;
}.

Definition default_forbid : list string :=
  [ "하사"; "내리니"; "내리다"; "충성을 맹세"; "충성 맹세"; "주군"; "신하";
    "군주께서"; "명하여"; "책봉"; "봉작"; "하달"; "조칙"; "어명"; "황제" ].

(** [payload.forbid_phrases or [...]], line 55. *)
Definition forbid_of (payload : NarrativeInput) : list string :=
  match forbid_phrases payload with
  | Some (p :: ps) => p :: ps
  | _ => default_forbid
  end.

Definition newline : string := String (ascii_of_N 10) EmptyString.

(** Lines 61-76. *)
Definition system_prompt (payload : NarrativeInput) : string :=
  let forbid_line := String.concat ", " (forbid_of payload) in
  let action' := strip (action payload) in
  let is_pledge := startswith action' "pledge" in
  let base :=
    "너는 삼국지 세계의 '기록관'이지만, 이 게임은 군주가 아니라 '장수 1인 시점' RPG다." +:+ newline +:+
    "규칙/판정은 이미 서버에서 확정됐다. 너는 결과를 '표현'만 한다." +:+ newline +:+
    "반드시 지켜라:" +:+ newline +:+
    "- 금지어/금지표현: " +:+ forbid_line +:+ newline +:+
    "- 선물/연회/교류는 '동료 장수 간 호의/신뢰/친분'으로만 묘사한다. (권력관계 암시 금지)" +:+ newline +:+
    "- 1~2문장, 과장/미사여구 과다 금지. 직관적이고 쉬운 문장." +:+ newline +:+
    "- 결과 숫자/요약은 바꾸지 말고, 의미만 덧붙여라." +:+ newline +:+
    "- '충성'이라는 단어는 pledge(임관) 같은 행동일 때만 제한적으로 허용한다." +:+ newline in
  if is_pledge
  then base +:+ "- pledge는 '임관/합류'로 표현하되, 과도한 군주 미화는 금지." +:+ newline
  else base.

(** Lines 93-99 for one item: [None] stands for [continue]. *)
Definition lore_line (it : gmap string PyValue) : option string :=
  let title := strip (str_of_get (it !! "title")) in
  let body := strip (str_of_get (it !! "body")) in
  match title, body with
  | EmptyString, EmptyString => None
  | EmptyString, _ => Some (take_chars 500 ("- " +:+ body))
  | _, _ => Some (take_chars 500 ("- " +:+ title +:+ ": " +:+ body))
  end.

(** Lines 90-101.  Nothing in the loop raises on a validated payload. *)
Definition lore_lines (payload : NarrativeInput) : list string :=
  match lore payload with
  | Some items => omap lore_line (firstn 6 items)
  | None => []
  end.

(** Lines 78-88 and 102-103. *)
Definition user_prompt (payload : NarrativeInput) : string :=
  let base :=
    "행동자: " +:+ actor payload +:+ " (role=" +:+ actor_role payload +:+ ")" +:+ newline +:+
    "대상: " +:+ str_or (target payload) "-" +:+ newline +:+
    "위치: " +:+ str_or (location payload) "-" +:+ newline +:+
    "시간: " +:+ str_or (time payload) "-" +:+ newline +:+
    "현재 목표: " +:+ str_or (objective payload) "-" +:+ newline +:+
    "행동: " +:+ action payload +:+ newline +:+
    "결과: " +:+ result payload +:+ newline +:+
    "분위기: " +:+ mood payload +:+ newline +:+
    "위 정보를 바탕으로 1~2문장 내러티브를 작성하라." in
  match lore_lines payload with
  | [] => base
  | ls => base +:+ newline +:+ newline +:+ "세계지식(사실, 요약):" +:+ newline +:+
          String.concat newline ls
  end.

(** Lines 40-43. *)
Definition template_text (payload : NarrativeInput) : string :=
  actor payload +:+ "의 행동(" +:+ action payload +:+ ") 결과: " +:+
  result payload +:+ ". " +:+ "난세의 기록관은 이를 비장한 승전보로 남겼다.".

(** Lines 116-119. *)
Definition fallback_text (payload : NarrativeInput) : string :=
  actor payload +:+ "의 행동(" +:+ action payload +:+ ") 결과: " +:+
  result payload +:+ ". " +:+ "기록관은 이를 난세의 전공으로 간결히 남겼다.".

(** [try: body except Exception: handler] *)
Definition try_except {A} (body : PyResult A) (handler : PyResult A) : PyResult A :=
  match body with
  | Ok a => Ok a
  | Raise _ => handler
  end.

(** The [try] block of lines 105-114. *)
Definition ask_backend (cfg : Config) (backend : Backend) (client : Client)
    (payload : NarrativeInput) : PyResult Response :=
  completion <- backend client (OPENAI_MODEL cfg)
                  [ {| role := "system"; content := system_prompt payload |};
                    {| role := "user"; content := user_prompt payload |} ] ;;
  choice <- getitem (choices completion) 0 ;;
  Ok {| text := str_or choice (result payload); provider := "openai-compatible" |}.

(** Lines 48-51. *)
Definition client_of (cfg : Config) : Client :=
  {| api_key := OPENAI_API_KEY cfg;
     base_url := match OPENAI_BASE_URL cfg with
                 | EmptyString => None
                 | u => Some u
                 end |}.

(** [narrate], lines 37-120.  Importing the client library and building the
    client (lines 46-51) send nothing and are taken to succeed. *)
Definition narrate (cfg : Config) (backend : Backend) (payload : NarrativeInput)
  : PyResult Response :=
  match OPENAI_API_KEY cfg with
  | EmptyString =>
      Ok {| text := template_text payload; provider := "template" |}
  | _ =>
      try_except
        (ask_backend cfg backend (client_of cfg) payload)
        (Ok {| text := fallback_text payload; provider := "template-fallback" |})
  end.

End AiApp.

Import Split.

(** ** The vocabulary of the design document

    Notions the design states its properties with, and the fixtures the
    properties are tried on. *)

(** The pixel at column [x] of row [y] in a buffer of [N + 1] columns. *)
Definition pixel (pixels : list Z) (N x y : Z) : Z :=
  nth (Z.to_nat (y * (N + 1) + x)) pixels 0.

(** The mean and the population standard deviation of the luminance, as
    real numbers. *)
Definition Rsum (l : list R) : R := fold_right Rplus 0%R l.

Definition luminance_mean (band : list Z) : R :=
  (Rsum (map IZR band) / INR (length band))%R.

Definition luminance_stddev (band : list Z) : R :=
  let mu := luminance_mean band in
  sqrt (Rsum (map (fun v => (IZR v - mu) * (IZR v - mu))%R band) / INR (length band)).

(** A tile filled with one colour value: every luminance byte is [v]. *)
Definition uniform_tile (v : Z) (tile : Tile) : Prop :=
  gray tile <> [] /\ Forall (eq v) (gray tile).

(** The number of bit positions below [width] at which two fingerprints
    differ. *)
Definition differing_bits (a b : Z) (width : Z) : Z :=
  Z.of_nat (length (List.filter (fun i => xorb (Z.testbit a i) (Z.testbit b i))
                      (range width))).

(** An index below 100 written with two decimal digits, the tens first. *)
Definition digit (d : Z) : ascii := ascii_of_N (Z.to_N (48 + d)).

Definition two_digits (idx : Z) : string :=
  String (digit (idx / 10)) (String (digit (idx mod 10)) EmptyString).

(** The cells accounted for in the summary. *)
Definition total_counted (st : State) : Z :=
  written st + skipped_empty st + skipped_duplicate st + skipped_by_preset st.

(** Every name handed to [save] so far is in [used_names], and no name was
    handed over twice. *)
Definition names_consistent (st : State) : Prop :=
  NoDup (save_calls st) /\ forall n, n ∈ save_calls st -> n ∈ used_names st.

(** The ways one cell can end, read off [cell_body]. *)
Inductive cell_step (args : Args) (env : Env) (img : Sheet) (cell_w cell_h r c : Z)
    (st : State) : Outcome -> Prop :=
  | step_preset_skip :
      preset_lookup (preset args) (r + 1) (c + 1) = None ->
      cell_step args env img cell_w cell_h r c st (Done (incr_skipped_by_preset st))
  | step_crop_raises mapped e :
      preset_lookup (preset args) (r + 1) (c + 1) = Some mapped ->
      crop img (cell_box args cell_w cell_h r c) = Raise e ->
      cell_step args env img cell_w cell_h r c st
        (Raised e (note_crop (cell_box args cell_w cell_h r c) st))
  | step_stat_raises mapped tile e :
      preset_lookup (preset args) (r + 1) (c + 1) = Some mapped ->
      crop img (cell_box args cell_w cell_h r c) = Ok tile ->
      is_empty_tile tile (empty_threshold args) = Raise e ->
      cell_step args env img cell_w cell_h r c st
        (Raised e (note_crop (cell_box args cell_w cell_h r c) st))
  | step_empty mapped tile :
      preset_lookup (preset args) (r + 1) (c + 1) = Some mapped ->
      crop img (cell_box args cell_w cell_h r c) = Ok tile ->
      is_empty_tile tile (empty_threshold args) = Ok true ->
      cell_step args env img cell_w cell_h r c st
        (Done (incr_skipped_empty (note_crop (cell_box args cell_w cell_h r c) st)))
  | step_hash_raises mapped tile e :
      preset_lookup (preset args) (r + 1) (c + 1) = Some mapped ->
      crop img (cell_box args cell_w cell_h r c) = Ok tile ->
      is_empty_tile tile (empty_threshold args) = Ok false ->
      dhash tile 8 = Raise e ->
      cell_step args env img cell_w cell_h r c st
        (Raised e (note_crop (cell_box args cell_w cell_h r c) st))
  | step_duplicate mapped tile h :
      preset_lookup (preset args) (r + 1) (c + 1) = Some mapped ->
      crop img (cell_box args cell_w cell_h r c) = Ok tile ->
      is_empty_tile tile (empty_threshold args) = Ok false ->
      dhash tile 8 = Ok h ->
      is_duplicate args h (kept_hashes st) = true ->
      cell_step args env img cell_w cell_h r c st
        (Done (incr_skipped_duplicate (note_crop (cell_box args cell_w cell_h r c) st)))
  | step_collision mapped tile h :
      preset_lookup (preset args) (r + 1) (c + 1) = Some mapped ->
      crop img (cell_box args cell_w cell_h r c) = Ok tile ->
      is_empty_tile tile (empty_threshold args) = Ok false ->
      dhash tile 8 = Ok h ->
      is_duplicate args h (kept_hashes st) = false ->
      resolve_filename args mapped r c ∈ used_names st ->
      cell_step args env img cell_w cell_h r c st
        (Done (incr_skipped_by_preset (note_crop (cell_box args cell_w cell_h r c) st)))
  | step_save_raises mapped tile h e :
      preset_lookup (preset args) (r + 1) (c + 1) = Some mapped ->
      crop img (cell_box args cell_w cell_h r c) = Ok tile ->
      is_empty_tile tile (empty_threshold args) = Ok false ->
      dhash tile 8 = Ok h ->
      is_duplicate args h (kept_hashes st) = false ->
      resolve_filename args mapped r c ∉ used_names st ->
      save env (resolve_filename args mapped r c) tile = Raise e ->
      cell_step args env img cell_w cell_h r c st
        (Raised e (note_save (resolve_filename args mapped r c)
                     (note_crop (cell_box args cell_w cell_h r c) st)))
  | step_written mapped tile h u :
      preset_lookup (preset args) (r + 1) (c + 1) = Some mapped ->
      crop img (cell_box args cell_w cell_h r c) = Ok tile ->
      is_empty_tile tile (empty_threshold args) = Ok false ->
      dhash tile 8 = Ok h ->
      is_duplicate args h (kept_hashes st) = false ->
      resolve_filename args mapped r c ∉ used_names st ->
      save env (resolve_filename args mapped r c) tile = Ok u ->
      cell_step args env img cell_w cell_h r c st
        (Done (record_written h (resolve_filename args mapped r c)
                 (note_save (resolve_filename args mapped r c)
                    (note_crop (cell_box args cell_w cell_h r c) st)))).

(** The design's sentence on a bad cell size: the run fails, and at that
    point nothing has been cropped or written. *)
Definition fails_before_cropping (args : Args) (env : Env) : Prop :=
  exists e st, main args env = Raised e st /\ crop_calls st = [] /\ save_calls st = [].

(** A tile of one colour, and a sheet of one colour with Pillow's [crop]
    on it: a box whose right or lower edge lies before the left or upper
    one is refused. *)
Definition flat_tile (v : Z) (w h : Z) : Tile :=
  {| gray := repeat v (Z.to_nat (w * h));
     gray_resized := fun w' h' => repeat v (Z.to_nat (w' * h')) |}.

Definition flat_sheet (v : Z) (w h : Z) : Sheet :=
  {| width := w; height := h;
     crop := fun '(x0, y0, x1, y1) =>
               if (x1 <? x0) || (y1 <? y0) then Raise ValueError
               else Ok (flat_tile v (x1 - x0) (y1 - y0)) |}.

Definition flat_env (v : Z) (w h : Z) : Env :=
  {| open_image := Ok (flat_sheet v w h);
     mkdir := Ok tt;
     save := fun _ _ => Ok tt |}.

(** The cell reaches the write: the preset lets it through, the tile is
    cropped, is not empty, hashes to [h], is no duplicate and its name is
    free. *)
Definition reaches_write (args : Args) (img : Sheet) (cell_w cell_h r c : Z)
    (st : State) (tile : Tile) (h : Z) (filename : string) : Prop :=
  exists mapped,
    preset_lookup (preset args) (r + 1) (c + 1) = Some mapped /\
    crop img (cell_box args cell_w cell_h r c) = Ok tile /\
    is_empty_tile tile (empty_threshold args) = Ok false /\
    dhash tile 8 = Ok h /\
    is_duplicate args h (kept_hashes st) = false /\
    filename = resolve_filename args mapped r c /\
    filename ∉ used_names st.

(** The design's sentence: whatever becomes of the write, the name is in
    the set once the cell has been handled. *)
Definition name_added_before_write (args : Args) (env : Env) (img : Sheet)
    (cell_w cell_h r c : Z) (st : State) : Prop :=
  forall tile h filename,
    reaches_write args img cell_w cell_h r c st tile h filename ->
    filename ∈ used_names (final_state (cell_body args env img cell_w cell_h r c st)).

(** The state after one tile was written under the name [portrait_01]. *)
Definition state_with_first_name : State :=
  record_written 4095 "portrait_01" (note_save "portrait_01" initial_state).

(** The same sheet with an output directory that refuses every write. *)
Definition read_only_env (v : Z) (w h : Z) : Env :=
  {| open_image := Ok (flat_sheet v w h);
     mkdir := Ok tt;
     save := fun _ _ => Raise OSError |}.

(** The synthetic 4 x 7 sheet of the design, run with the default
    arguments.  The cells are addressed by their 0-based (row, column);
    [first] is the earlier cell of the identical pair in row-major order. *)
Definition in_grid (p : Z * Z) : Prop := 0 <= fst p < 4 /\ 0 <= snd p < 7.

Definition grid_index (p : Z * Z) : Z := fst p * 7 + snd p.

Definition grid_cell (i : Z) : Z * Z := (i / 7, i mod 7).

Record synthetic_sheet (env : Env) (img : Sheet) (tile_at : Z * Z -> Tile)
    (black first second : Z * Z) : Prop := {
  syn_open : open_image env = Ok img;
  syn_mkdir : mkdir env = Ok tt;
  syn_save : forall name tile, save env name tile = Ok tt;
  syn_crop : forall p cell_w cell_h,
    in_grid p ->
    cell_extent (width img) 7 12 14 = Ok cell_w ->
    cell_extent (height img) 4 12 14 = Ok cell_h ->
    crop img (cell_box default_args cell_w cell_h (fst p) (snd p)) = Ok (tile_at p);
  syn_black_in : in_grid black;
  syn_first_in : in_grid first;
  syn_second_in : in_grid second;
  syn_first_not_black : first <> black;
  syn_second_not_black : second <> black;
  syn_order : grid_index first < grid_index second;
  (** one cell solid black *)
  syn_black : uniform_tile 0 (tile_at black);
  (** two cells with bit-identical content *)
  syn_same : tile_at first = tile_at second;
  (** every other cell holds content: it is not classified empty and it
      hashes *)
  syn_content : forall p, in_grid p -> p <> black ->
    is_empty_tile (tile_at p) (empty_threshold default_args) = Ok false /\
    exists h, dhash (tile_at p) 8 = Ok h;
  (** apart from the identical pair, the contents are distinct: farther
      apart than the threshold *)
  syn_distinct : forall p q hp hq,
    in_grid p -> in_grid q -> p <> black -> q <> black -> p <> q ->
    ~ (p = first /\ q = second) -> ~ (p = second /\ q = first) ->
    dhash (tile_at p) 8 = Ok hp -> dhash (tile_at q) 8 = Ok hq ->
    dedupe_hamming default_args < hamming_distance hp hq;
}.

(** What holds after the first [k] cells of the synthetic sheet, in
    row-major order; [e], [a] and [b] are the indices of the black cell and
    of the identical pair. *)
Definition synthetic_inv (tile_at : Z * Z -> Tile) (e a b : Z) (k : Z) (st : State) : Prop :=
  written st = k - Z.b2z (e <? k) - Z.b2z (b <? k) /\
  skipped_empty st = Z.b2z (e <? k) /\
  skipped_duplicate st = Z.b2z (b <? k) /\
  skipped_by_preset st = 0 /\
  (forall h, In h (kept_hashes st) ->
     exists q, 0 <= q < k /\ q <> e /\ q <> b /\ dhash (tile_at (grid_cell q)) 8 = Ok h) /\
  (a < k -> exists ha, dhash (tile_at (grid_cell a)) 8 = Ok ha /\ In ha (kept_hashes st)) /\
  (forall n, n ∈ used_names st ->
     exists q, 0 <= q < k /\ n = resolve_filename default_args None (q / 7) (q mod 7)).

(** A sheet for the synthetic scenario.  It is 171 x 98 pixels, so with
    the default margin and gap its cells are 9 x 8 and the resize of
    [dhash] to (9, 8) returns the tile unchanged.  The cell of row-major
    index [i] carries a staircase pattern whose fingerprint is
    [codeword i]; two codewords differ in at least six bits. *)
Definition codeword (i : Z) : Z :=
  fold_right (fun k acc => if Z.testbit i k then Z.lor acc (Z.shiftl 63 (6 * k)) else acc)
             0 (range 5).

Fixpoint staircase (steps : list bool) (v : Z) : list Z :=
  v :: match steps with
       | [] => []
       | down :: steps' => staircase steps' (if down then v - 1 else v)
       end.

Definition coded_pixels (h : Z) : list Z :=
  flat_map (fun y => staircase (map (fun x => Z.testbit h (y * 8 + x)) (range 8)) 136)
           (range 8).

Definition coded_tile (i : Z) : Tile :=
  {| gray := coded_pixels (codeword i);
     gray_resized := fun w h =>
       if (w =? 9) && (h =? 8) then coded_pixels (codeword i) else [] |}.

Definition example_black : Z * Z := (1, 3).
Definition example_first : Z * Z := (0, 2).
Definition example_second : Z * Z := (2, 5).

Definition example_tile_at (p : Z * Z) : Tile :=
  if bool_decide (p = example_black) then flat_tile 0 9 8
  else if bool_decide (p = example_second) then coded_tile (grid_index example_first)
  else coded_tile (grid_index p).

Definition example_sheet : Sheet :=
  {| width := 171; height := 98;
     crop := fun '(x0, y0, x1, y1) =>
               Ok (example_tile_at ((y0 - 12) / 22, (x0 - 12) / 23)) |}.

Definition example_env : Env :=
  {| open_image := Ok example_sheet;
     mkdir := Ok tt;
     save := fun _ _ => Ok tt |}.

(** A tile whose luminance resized to 3 x 2 is [5 3 3 / 1 2 0]. *)
Definition small_tile : Tile :=
  {| gray := [5; 3; 3; 1; 2; 0];
     gray_resized := fun w h => if (w =? 3) && (h =? 2) then [5; 3; 3; 1; 2; 0] else [] |}.

(** Fixtures for the narration service. *)
Definition keyless_config : AiApp.Config :=
  {| AiApp.OPENAI_API_KEY := ""; AiApp.OPENAI_MODEL := "gpt-4o-mini";
     AiApp.OPENAI_BASE_URL := "" |}.

Definition example_config : AiApp.Config :=
  {| AiApp.OPENAI_API_KEY := "sk-test"; AiApp.OPENAI_MODEL := "gpt-4o-mini";
     AiApp.OPENAI_BASE_URL := "" |}.

Definition failing_backend : AiApp.Backend := fun _ _ _ => Raise OSError.

Definition silent_backend : AiApp.Backend :=
  fun _ _ _ => Ok {| AiApp.choices := [] |}.

Definition example_payload : AiApp.NarrativeInput :=
  {| AiApp.actor := "Guan Yu"; AiApp.action := "duel"; AiApp.result := "victory";
     AiApp.mood := "epic"; AiApp.actor_role := "officer"; AiApp.target := None;
     AiApp.perspective := "officer"; AiApp.forbid_phrases := None;
     AiApp.objective := None; AiApp.time := None; AiApp.location := None;
     AiApp.lore := None |}.

Definition other_payload : AiApp.NarrativeInput :=
  {| AiApp.actor := "Guan Yu"; AiApp.action := "duel"; AiApp.result := "victory";
     AiApp.mood := "grim"; AiApp.actor_role := "ronin"; AiApp.target := Some "Hua Xiong";
     AiApp.perspective := "officer"; AiApp.forbid_phrases := Some ["주군"];
     AiApp.objective := Some "hold the pass"; AiApp.time := Some "dawn";
     AiApp.location := Some "Sishui";
     AiApp.lore := Some [ {[ "title" := {| AiApp.truthy := true; AiApp.str := "Sishui Pass" |} ]} ] |}.

(** *** Vocabulary of the further properties *)

(** The books of a run: one kept fingerprint, one used name and one call
    to [save] per written tile. *)
Definition books_balanced (st : State) : Prop :=
  Z.of_nat (length (kept_hashes st)) = written st /\
  Z.of_nat (size (used_names st)) = written st /\
  Z.of_nat (length (save_calls st)) = written st.

(** Any two fingerprints of the list are farther apart than the threshold. *)
Definition pairwise_apart (threshold : Z) (kept : list Z) : Prop :=
  forall i j hi hj,
    kept !! i = Some hi -> kept !! j = Some hj -> i <> j ->
    threshold < hamming_distance hi hj.

(** The boxes a run passes to [crop], row by row: the preset decides which
    cells are cropped at all. *)
Definition cropped_boxes (args : Args) (cell_w cell_h : Z) : list Box :=
  flat_map (fun r =>
    flat_map (fun c =>
      match preset_lookup (preset args) (r + 1) (c + 1) with
      | Some _ => [cell_box args cell_w cell_h r c]
      | None => []
      end) (range (cols args))) (range (rows args)).

(** What a loop has appended to a log [g] of the state when it was to
    append [expected]: all of it when it ends normally, an initial part
    when an exception cuts it short. *)
Definition appended {A} (g : State -> list A) (st : State) (expected : list A)
    (o : Outcome) : Prop :=
  match o with
  | Done st' => g st' = g st ++ expected
  | Raised _ st' => exists k, g st' = g st ++ k /\ k `prefix_of` expected
  end.

(** The name a cell would be written under, [None] when the preset skips
    the cell (lines 103-111 and 122-126). *)
Definition cell_name (args : Args) (r c : Z) : option string :=
  match preset_lookup (preset args) (r + 1) (c + 1) with
  | None => None
  | Some mapped => Some (resolve_filename args mapped r c)
  end.

(** What holds after the first [k] cells of a run in row-major order, for
    a grid of [C] columns: no cell was skipped for its name, and every used
    name is the name of one of these cells. *)
Definition names_fresh_inv (args : Args) (C k : Z) (st : State) : Prop :=
  skipped_by_preset st + Z.of_nat (length (crop_calls st)) = k /\
  (preset args = preset_none -> skipped_by_preset st = 0) /\
  forall n, n ∈ used_names st ->
    exists q, 0 <= q < k /\ cell_name args (q / C) (q mod C) = Some n.

(** The names of the officers table. *)
Definition officer_names : gset string :=
  list_to_set (omap snd (map_to_list OFFICER_PRESET_4X6)).

(** The bytes of [s] all continue a character. *)
Fixpoint all_continuation (s : string) : Prop :=
  match s with
  | EmptyString => True
  | String b t => AiApp.is_continuation b = true /\ all_continuation t
  end.

(** One character: a byte and the bytes that continue it. *)
Definition one_char (p : string) : Prop :=
  match p with
  | EmptyString => False
  | String _ t => all_continuation t
  end.

(** A character that does not begin with a continuation byte. *)
Definition led_char (p : string) : Prop :=
  match p with
  | EmptyString => False
  | String a t => AiApp.is_continuation a = false /\ all_continuation t
  end.

(** A list of characters as [chars] produces it: only the first one may
    begin with a continuation byte. *)
Definition char_list (cs : list string) : Prop :=
  match cs with
  | [] => True
  | p :: cs' => one_char p /\ Forall led_char cs'
  end.

(** Further fixtures: [small_tile] ten levels brighter, the command lines
    [--cols 6 --preset officers_4x6], [--rows 0], [--no-dedupe] and
    [--dedupe-hamming 64], a
    backend whose first choice has no content, and a payload with seven
    lore items. *)
Definition brighter_small_tile : Tile :=
  {| gray := map (Z.add 10) (gray small_tile);
     gray_resized := fun w h => map (Z.add 10) (gray_resized small_tile w h) |}.

Definition officers_args : Args :=
  {| rows := 4; cols := 6; margin := 12; gap := 14; prefix := "portrait";
     empty_threshold := 2; no_dedupe := false; dedupe_hamming := 5;
     preset := preset_officers_4x6 |}.

Definition zero_rows_args : Args :=
  {| rows := 0; cols := 7; margin := 12; gap := 14; prefix := "portrait";
     empty_threshold := 2; no_dedupe := false; dedupe_hamming := 5;
     preset := preset_none |}.

Definition no_dedupe_args : Args :=
  {| rows := 4; cols := 7; margin := 12; gap := 14; prefix := "portrait";
     empty_threshold := 2; no_dedupe := true; dedupe_hamming := 5;
     preset := preset_none |}.

Definition wide_threshold_args : Args :=
  {| rows := 4; cols := 7; margin := 12; gap := 14; prefix := "portrait";
     empty_threshold := 2; no_dedupe := false; dedupe_hamming := 64;
     preset := preset_none |}.

Definition contentless_backend : AiApp.Backend :=
  fun _ _ _ => Ok {| AiApp.choices := [None; Some "unused"] |}.

Definition lore_item (title body : string) : gmap string AiApp.PyValue :=
  {[ "title" := {| AiApp.truthy := true; AiApp.str := title |};
     "body" := {| AiApp.truthy := true; AiApp.str := body |} ]}.

Definition six_lore_items : list (gmap string AiApp.PyValue) :=
  [ lore_item "Hulao Pass" "Lu Bu held the pass.";
    lore_item "" "The coalition gathered at Suanzao.";
    lore_item "Sishui" "";
    lore_item "" "";
    lore_item " Luoyang " " burned ";
    lore_item "Chang'an" "the new capital" ].

Definition lore_payload : AiApp.NarrativeInput :=
  {| AiApp.actor := "Guan Yu"; AiApp.action := "duel"; AiApp.result := "victory";
     AiApp.mood := "epic"; AiApp.actor_role := "officer"; AiApp.target := None;
     AiApp.perspective := "officer"; AiApp.forbid_phrases := None;
     AiApp.objective := None; AiApp.time := None; AiApp.location := None;
     AiApp.lore := Some (six_lore_items ++ [lore_item "Red Cliffs" "not yet"]) |}.

Ltac settle_counters Hw Hse Hsd :=
  revert Hw Hse Hsd;
  repeat match goal with
         | |- context [?x <? ?y] => destruct (Z.ltb_spec x y)
         end;
  simpl; intros Hw Hse Hsd; try lia.

Ltac grid_cases p H :=
  let r := fresh "r" in
  let c := fresh "c" in
  let Hr := fresh "Hr" in
  let Hc := fresh "Hc" in
  destruct p as [r c]; unfold in_grid in H; cbn [fst snd] in H;
  assert (r = 0 \/ r = 1 \/ r = 2 \/ r = 3) as Hr by lia;
  assert (c = 0 \/ c = 1 \/ c = 2 \/ c = 3 \/ c = 4 \/ c = 5 \/ c = 6) as Hc by lia;
  clear H;
  destruct Hr as [->|[->|[->| ->]]];
  destruct Hc as [->|[->|[->|[->|[->|[->| ->]]]]]].

Ltac officer_entry H :=
  unfold OFFICER_PRESET_4X6 in H; apply elem_of_list_to_map_2 in H;
  repeat (apply elem_of_cons in H; destruct H as [H|H]; [injection H as ? ? ?|]);
  [..|apply elem_of_nil in H; destruct H].

(** ** Properties of the splitter *)

(** *** Ranges, loops and lists *)

Lemma range_S (n : nat) : range (Z.of_nat (S n)) = range (Z.of_nat n) ++ [Z.of_nat n].
Proof.
  unfold range. rewrite !Nat2Z.id, seq_S, map_app. reflexivity.
Qed.

Lemma range_0_S (n : nat) : range (Z.of_nat (S n)) = 0 :: map Z.succ (range (Z.of_nat n)).
Proof.
  unfold range. rewrite !Nat2Z.id. cbn [seq map]. f_equal.
  rewrite <- seq_shift, !map_map. apply map_ext. intros i. lia.
Qed.

Lemma range_nonpos (n : Z) : n <= 0 -> range n = [].
Proof.
  intros H. unfold range. replace (Z.to_nat n) with 0%nat by lia. reflexivity.
Qed.

Lemma range_pos (n : Z) : 1 <= n -> exists l, range n = 0 :: l.
Proof.
  intros H. unfold range. destruct (Z.to_nat n) as [|k] eqn:E; [lia|].
  eexists. reflexivity.
Qed.

Lemma range_add (a : Z) (b : nat) :
  0 <= a -> range (a + Z.of_nat b) = range a ++ map (Z.add a) (range (Z.of_nat b)).
Proof.
  intros Ha. induction b as [|b IH].
  - rewrite Z.add_0_r. simpl. rewrite app_nil_r. reflexivity.
  - replace (a + Z.of_nat (S b)) with (Z.of_nat (S (Z.to_nat a + b))) by lia.
    rewrite !range_S, map_app, app_assoc, <- IH.
    replace (Z.of_nat (Z.to_nat a + b)) with (a + Z.of_nat b) by lia. reflexivity.
Qed.

Lemma in_range (n i : Z) : In i (range n) <-> 0 <= i < n.
Proof.
  unfold range. rewrite in_map_iff. split.
  - intros [k [<- Hk]]. apply in_seq in Hk. lia.
  - intros H. exists (Z.to_nat i). split; [lia|]. apply in_seq. lia.
Qed.

Lemma length_range (n : Z) : Z.of_nat (length (range n)) = Z.max 0 n.
Proof. unfold range. rewrite length_map, length_seq. lia. Qed.

Lemma for_each_app {S : Type} (l1 l2 : list Z) (body : Z -> S -> PyResult S) (s : S) :
  for_each (l1 ++ l2) body s = (s' <- for_each l1 body s ;; for_each l2 body s').
Proof.
  revert s. induction l1 as [|i l1 IH]; intros s; simpl; [reflexivity|].
  destruct (body i s); simpl; auto.
Qed.

Lemma getitem_ok {A} (d : A) (l : list A) (i : Z) :
  0 <= i < Z.of_nat (length l) -> getitem l i = Ok (nth (Z.to_nat i) l d).
Proof.
  intros H. unfold getitem.
  destruct (Z.ltb_spec i 0); [lia|].
  destruct (Z.ltb_spec i 0); [lia|].
  destruct (Z.leb_spec (Z.of_nat (length l)) i); [lia|]. simpl.
  destruct (nth_error l (Z.to_nat i)) eqn:E.
  - f_equal. symmetry. apply nth_error_nth. exact E.
  - apply nth_error_None in E. lia.
Qed.

Lemma filter_length_ext {A} (f g : A -> bool) (l : list A) :
  (forall x, In x l -> f x = g x) -> length (List.filter f l) = length (List.filter g l).
Proof.
  induction l as [|x l IH]; intros H; [reflexivity|].
  cbn [List.filter]. rewrite (H x (or_introl eq_refl)).
  destruct (g x); cbn [length]; rewrite IH; auto; intros y Hy; apply H; right; exact Hy.
Qed.

Lemma filter_map_length {A B} (f : B -> bool) (g : A -> B) (l : list A) :
  length (List.filter f (map g l)) = length (List.filter (fun x => f (g x)) l).
Proof.
  induction l as [|x l IH]; [reflexivity|].
  cbn [map List.filter]. destruct (f (g x)); cbn [length]; rewrite IH; reflexivity.
Qed.

Lemma for_state_app (l1 l2 : list Z) (body : Z -> State -> Outcome) (st : State) :
  for_state (l1 ++ l2) body st
  = match for_state l1 body st with
    | Done s => for_state l2 body s
    | Raised e s => Raised e s
    end.
Proof.
  revert st. induction l1 as [|i l1 IH]; intros st; cbn [for_state app]; [reflexivity|].
  destruct (body i st); [apply IH|reflexivity].
Qed.

Lemma for_state_map (f : Z -> Z) (l : list Z) (body : Z -> State -> Outcome) (st : State) :
  for_state (map f l) body st = for_state l (fun i => body (f i)) st.
Proof.
  revert st. induction l as [|i l IH]; intros st; cbn [for_state map]; [reflexivity|].
  destruct (body (f i) st); [apply IH|reflexivity].
Qed.

Lemma for_state_ext (l : list Z) (body1 body2 : Z -> State -> Outcome) (st : State) :
  (forall i s, In i l -> body1 i s = body2 i s) ->
  for_state l body1 st = for_state l body2 st.
Proof.
  revert st. induction l as [|i l IH]; intros st H; cbn [for_state]; [reflexivity|].
  rewrite (H i st (or_introl eq_refl)).
  destruct (body2 i st); [|reflexivity].
  apply IH. intros j s Hj. apply H. right. exact Hj.
Qed.

Lemma for_state_inv (I F : State -> Prop) (body : Z -> State -> Outcome)
    (l : list Z) (st : State) :
  (forall i s, I s ->
     match body i s with Done s' => I s' | Raised _ s' => F s' end) ->
  I st ->
  match for_state l body st with Done s' => I s' | Raised _ s' => F s' end.
Proof.
  intros Hbody. revert st. induction l as [|i l IH]; intros st Hst; cbn [for_state].
  - exact Hst.
  - pose proof (Hbody i st Hst) as Hstep.
    destruct (body i st) as [s'|e s']; [apply IH; exact Hstep|exact Hstep].
Qed.

Lemma for_state_count (m : State -> Z) (k : Z) (body : Z -> State -> Outcome)
    (l : list Z) (st st' : State) :
  (forall i s s', body i s = Done s' -> m s' = m s + k) ->
  for_state l body st = Done st' ->
  m st' = m st + k * Z.of_nat (length l).
Proof.
  intros Hbody. revert st. induction l as [|i l IH]; intros st Hrun; cbn [for_state] in Hrun.
  - inversion Hrun. subst. simpl. lia.
  - destruct (body i st) as [s1|e s1] eqn:E; [|discriminate].
    apply Hbody in E. apply IH in Hrun. cbn [length]. lia.
Qed.

(** A relation that every cell respects is respected by the loop. *)
Lemma for_state_preorder (R : State -> State -> Prop)
    (body : Z -> State -> Outcome) (l : list Z) (st : State) :
  (forall s, R s s) ->
  (forall s1 s2 s3, R s1 s2 -> R s2 s3 -> R s1 s3) ->
  (forall i s, R s (final_state (body i s))) ->
  R st (final_state (for_state l body st)).
Proof.
  intros Hrefl Htrans Hbody. revert st.
  induction l as [|i l IH]; intros st; cbn [for_state]; [apply Hrefl|].
  pose proof (Hbody i st) as Hstep.
  destruct (body i st) as [s'|e s']; cbn [final_state] in Hstep.
  - apply (Htrans _ s'); [exact Hstep|apply IH].
  - exact Hstep.
Qed.

(** The two loops visit the cells in row-major order. *)
Lemma grid_flat (R : nat) (C : Z) (body : Z -> Z -> State -> Outcome) (st : State) :
  0 < C ->
  for_state (range (Z.of_nat R)) (fun r => for_state (range C) (fun c => body r c)) st
  = for_state (range (Z.of_nat R * C)) (fun i => body (i / C) (i mod C)) st.
Proof.
  intros HC. induction R as [|R IH].
  - reflexivity.
  - rewrite range_S, for_state_app, IH.
    replace (Z.of_nat (S R) * C) with (Z.of_nat R * C + Z.of_nat (Z.to_nat C)) by lia.
    rewrite range_add by lia. rewrite for_state_app.
    destruct (for_state (range (Z.of_nat R * C)) _ st) as [s|e s]; [|reflexivity].
    cbn [for_state].
    assert (Hrow : for_state (range C) (fun c => body (Z.of_nat R) c) s
                   = for_state (map (Z.add (Z.of_nat R * C)) (range (Z.of_nat (Z.to_nat C))))
                       (fun i => body (i / C) (i mod C)) s).
    { rewrite for_state_map. rewrite Z2Nat.id by lia.
      apply for_state_ext. intros c s' Hc. apply in_range in Hc.
      f_equal.
      - apply (Z.div_unique _ C _ c); lia.
      - apply (Z.mod_unique _ C (Z.of_nat R)); lia. }
    rewrite Hrow. clear Hrow.
    match goal with |- context [for_state ?l ?b s] => destruct (for_state l b s) end;
      reflexivity.
Qed.

(** *** The perceptual hash *)

Lemma testbit_shiftl_1 (m j : Z) : 0 <= m -> Z.testbit (Z.shiftl 1 m) j = (j =? m).
Proof.
  intros Hm. rewrite Z.shiftl_1_l, Z.pow2_bits_eqb by lia. apply Z.eqb_sym.
Qed.

Lemma dhash_inner_loop (pixels : list Z) (row : Z) (k : nat) (b0 i0 : Z) :
  0 <= row -> 0 <= i0 ->
  row + Z.of_nat k < Z.of_nat (length pixels) \/ k = 0%nat ->
  exists b1,
    for_each (range (Z.of_nat k)) (dhash_inner pixels row) (b0, i0)
      = Ok (b1, i0 + Z.of_nat k) /\
    forall j, Z.testbit b1 j =
      Z.testbit b0 j ||
      ((i0 <=? j) && (j <? i0 + Z.of_nat k) &&
       (nth (Z.to_nat (row + (j - i0))) pixels 0
          >? nth (Z.to_nat (row + (j - i0) + 1)) pixels 0)).
Proof.
  intros Hrow Hi0. induction k as [|k IH]; intros Hlen.
  - exists b0. split.
    + simpl. f_equal. f_equal. lia.
    + intros j. replace (j <? i0 + Z.of_nat 0) with (negb (i0 <=? j)).
      * destruct (i0 <=? j), (Z.testbit b0 j); reflexivity.
      * rewrite Z.add_0_r. rewrite Z.leb_antisym. rewrite negb_involutive. reflexivity.
  - destruct IH as [b1 [Hrun Hbits]]; [left; lia|].
    rewrite range_S, for_each_app, Hrun. simpl.
    rewrite (getitem_ok 0), (getitem_ok 0) by lia. simpl.
    eexists. split.
    + f_equal. f_equal. lia.
    + intros j.
      set (l := nth (Z.to_nat (row + Z.of_nat k)) pixels 0).
      set (r := nth (Z.to_nat (row + Z.of_nat k + 1)) pixels 0).
      assert (Hstep : Z.testbit (if l >? r then Z.lor b1 (Z.shiftl 1 (i0 + Z.of_nat k)) else b1) j
                = Z.testbit b1 j || ((j =? i0 + Z.of_nat k) && (l >? r))).
      { destruct (l >? r).
        - rewrite Z.lor_spec, testbit_shiftl_1 by lia. rewrite andb_true_r. reflexivity.
        - rewrite andb_false_r, orb_false_r. reflexivity. }
      rewrite Hstep, Hbits. clear Hstep Hbits Hrun.
      destruct (Z.eqb_spec j (i0 + Z.of_nat k)) as [->|Hne].
      * replace (row + (i0 + Z.of_nat k - i0)) with (row + Z.of_nat k) by lia.
        fold l r.
        destruct (Z.leb_spec i0 (i0 + Z.of_nat k)); [|lia].
        destruct (Z.ltb_spec (i0 + Z.of_nat k) (i0 + Z.of_nat k)); [lia|].
        destruct (Z.ltb_spec (i0 + Z.of_nat k) (i0 + Z.of_nat (S k))); [|lia].
        simpl. rewrite orb_false_r. reflexivity.
      * simpl. rewrite orb_false_r.
        replace (j <? i0 + Z.of_nat (S k)) with (j <? i0 + Z.of_nat k); [reflexivity|].
        destruct (Z.ltb_spec j (i0 + Z.of_nat k)), (Z.ltb_spec j (i0 + Z.of_nat (S k)));
          try reflexivity; lia.
Qed.

Lemma dhash_outer_loop (pixels : list Z) (n k : nat) :
  Z.of_nat (length pixels) = (Z.of_nat n + 1) * Z.of_nat n ->
  (k <= n)%nat ->
  exists b,
    for_each (range (Z.of_nat k)) (dhash_row pixels (Z.of_nat n)) (0, 0)
      = Ok (b, Z.of_nat k * Z.of_nat n) /\
    forall j, Z.testbit b j =
      (0 <=? j) && (j <? Z.of_nat k * Z.of_nat n) &&
      (pixel pixels (Z.of_nat n) (j mod Z.of_nat n) (j / Z.of_nat n)
         >? pixel pixels (Z.of_nat n) (j mod Z.of_nat n + 1) (j / Z.of_nat n)).
Proof.
  intros Hlen. set (N := Z.of_nat n) in *.
  induction k as [|k IH]; intros Hk.
  - exists 0. split; [reflexivity|].
    intros j. rewrite Z.bits_0. replace (Z.of_nat 0 * N) with 0 by lia.
    destruct (Z.leb_spec 0 j), (Z.ltb_spec j 0); try reflexivity; lia.
  - destruct IH as [b [Hrun Hbits]]; [lia|].
    rewrite range_S, for_each_app, Hrun. simpl.
    unfold dhash_row.
    destruct (dhash_inner_loop pixels (Z.of_nat k * (N + 1)) n b (Z.of_nat k * N))
      as [b1 [Hrun1 Hbits1]].
    { subst N. lia. }
    { subst N. lia. }
    { left. rewrite Hlen.
      assert (Z.of_nat k * (N + 1) <= (N - 1) * (N + 1))
        by (apply Z.mul_le_mono_nonneg_r; subst N; lia).
      subst N. lia. }
    fold N in Hrun1. rewrite Hrun1.
    exists b1. split; [f_equal; f_equal; lia|].
    intros j. rewrite Hbits1, Hbits. clear Hbits1 Hbits Hrun Hrun1.
    fold N.
    assert (HN : 0 < N) by (subst N; lia).
    destruct (Z.leb_spec (Z.of_nat k * N) j) as [Hlo|Hlo];
    destruct (Z.ltb_spec j (Z.of_nat k * N + N)) as [Hhi|Hhi]; simpl.
    + (* the row just processed *)
      assert (Hq : j / N = Z.of_nat k) by (symmetry; apply (Z.div_unique j N _ (j - Z.of_nat k * N)); lia).
      assert (Hr : j mod N = j - Z.of_nat k * N) by (symmetry; apply (Z.mod_unique j N (Z.of_nat k)); lia).
      destruct (Z.ltb_spec j (Z.of_nat k * N)); [lia|].
      destruct (Z.leb_spec 0 j); [|nia].
      destruct (Z.ltb_spec j (Z.of_nat (S k) * N)); [|lia].
      rewrite andb_false_r. simpl. unfold pixel. rewrite Hq, Hr.
      f_equal; f_equal; f_equal; lia.
    + rewrite orb_false_r.
      destruct (Z.ltb_spec j (Z.of_nat k * N)); [lia|].
      destruct (Z.ltb_spec j (Z.of_nat (S k) * N)); [lia|].
      reflexivity.
    + rewrite orb_false_r.
      destruct (Z.ltb_spec j (Z.of_nat k * N)); [|lia].
      destruct (Z.ltb_spec j (Z.of_nat (S k) * N)); [|lia].
      reflexivity.
    + lia.
Qed.

Lemma dhash_pixels_spec (pixels : list Z) (N : Z) :
  0 <= N ->
  Z.of_nat (length pixels) = (N + 1) * N ->
  exists bits,
    dhash_pixels pixels N = Ok bits /\
    forall j, Z.testbit bits j =
      (0 <=? j) && (j <? N * N) &&
      (pixel pixels N (j mod N) (j / N) >? pixel pixels N (j mod N + 1) (j / N)).
Proof.
  intros HN Hlen.
  destruct (dhash_outer_loop pixels (Z.to_nat N) (Z.to_nat N)) as [b [Hrun Hbits]].
  - rewrite Z2Nat.id by lia. exact Hlen.
  - lia.
  - rewrite Z2Nat.id in * by lia.
    exists b. unfold dhash_pixels. rewrite Hrun. simpl. split; [reflexivity|].
    exact Hbits.
Qed.

(** C4.  For a tile whose luminance, resized to [N + 1] columns by [N] rows,
    is the buffer [pixels], [dhash] returns a fingerprint whose bit
    [y * N + x] is set exactly when [pixel(x, y) > pixel(x + 1, y)]; a tie
    leaves the bit clear, no bit outside [0, N * N) is set, and two tiles
    with the same resized luminance get the same fingerprint. *)
Theorem dhash_bit_layout (tile : Tile) (N : Z) :
  0 <= N ->
  Z.of_nat (length (gray_resized tile (N + 1) N)) = (N + 1) * N ->
  let pixels := gray_resized tile (N + 1) N in
  exists bits,
    dhash tile N = Ok bits /\
    (forall x y, 0 <= x < N -> 0 <= y < N ->
       Z.testbit bits (y * N + x) = (pixel pixels N x y >? pixel pixels N (x + 1) y)) /\
    (forall x y, 0 <= x < N -> 0 <= y < N ->
       pixel pixels N x y = pixel pixels N (x + 1) y ->
       Z.testbit bits (y * N + x) = false) /\
    (forall j, j < 0 \/ N * N <= j -> Z.testbit bits j = false) /\
    (forall tile', gray_resized tile' (N + 1) N = pixels -> dhash tile' N = Ok bits).
Proof.
  intros HN Hlen pixels.
  destruct (dhash_pixels_spec pixels N HN Hlen) as [bits [Hrun Hbits]].
  exists bits.
  assert (Hxy : forall x y, 0 <= x < N -> 0 <= y < N ->
            Z.testbit bits (y * N + x) = (pixel pixels N x y >? pixel pixels N (x + 1) y)).
  { intros x y Hx Hy. rewrite Hbits.
    assert (Hq : (y * N + x) / N = y) by (symmetry; apply (Z.div_unique _ N _ x); lia).
    assert (Hr : (y * N + x) mod N = x) by (symmetry; apply (Z.mod_unique _ N y); lia).
    rewrite Hq, Hr.
    destruct (Z.leb_spec 0 (y * N + x)); [|nia].
    destruct (Z.ltb_spec (y * N + x) (N * N)); [reflexivity|nia]. }
  split; [exact Hrun|]. split; [exact Hxy|]. split; [|split].
  - intros x y Hx Hy Htie. rewrite Hxy by assumption. rewrite Htie.
    rewrite Z.gtb_ltb. apply Z.ltb_irrefl.
  - intros j Hj. rewrite Hbits.
    destruct (Z.leb_spec 0 j); [|reflexivity].
    destruct (Z.ltb_spec j (N * N)); [lia|reflexivity].
  - intros tile' Heq. unfold dhash. rewrite Heq. exact Hrun.
Qed.

Lemma dhash_bit_layout_witness :
  exists bits,
    dhash small_tile 2 = Ok bits /\
    Z.testbit bits (0 * 2 + 0) = true /\
    Z.testbit bits (0 * 2 + 1) = false /\
    Z.testbit bits (1 * 2 + 0) = false /\
    Z.testbit bits (1 * 2 + 1) = true.
Proof.
  destruct (dhash_bit_layout small_tile 2) as [bits [Hrun [Hbit _]]].
  - lia.
  - reflexivity.
  - exists bits. split; [exact Hrun|].
    repeat split; (rewrite Hbit by lia; reflexivity).
Defined.

Example dhash_small_tile : dhash small_tile 2 = Ok 9.
Proof. reflexivity. Qed.

Example dhash_short_buffer : dhash_pixels [5; 3; 3; 1; 2] 2 = Raise IndexError.
Proof. reflexivity. Qed.

(** *** The tile classifier *)

Lemma Q2R_inject_Z (z : Z) : Q2R (inject_Z z) = IZR z.
Proof. unfold Q2R. simpl. rewrite Rinv_1. ring. Qed.

Lemma IZR_sum (l : list Z) : IZR (fold_right Z.add 0 l) = Rsum (map IZR l).
Proof.
  unfold Rsum. induction l as [|v l IH]; simpl; [reflexivity|].
  rewrite plus_IZR, IH. reflexivity.
Qed.

Lemma IZR_sum2 (l : list Z) :
  IZR (fold_right (fun v acc => v * v + acc) 0 l)
  = Rsum (map (fun v => IZR v * IZR v)%R l).
Proof.
  unfold Rsum. induction l as [|v l IH]; simpl; [reflexivity|].
  rewrite plus_IZR, mult_IZR, IH. reflexivity.
Qed.

Lemma sum_sq_dev (l : list Z) (mu : R) :
  Rsum (map (fun v => (IZR v - mu) * (IZR v - mu))%R l)
  = (Rsum (map (fun v => IZR v * IZR v)%R l)
     - 2 * mu * Rsum (map IZR l) + INR (length l) * mu * mu)%R.
Proof.
  unfold Rsum. induction l as [|v l IH].
  - simpl. ring.
  - cbn [map fold_right length]. rewrite IH, S_INR. ring.
Qed.

Lemma Qlt_bool_iff (x y : Q) : Qlt_bool x y = true <-> (x < y)%Q.
Proof.
  unfold Qlt_bool. rewrite negb_true_iff.
  split.
  - intros H. apply Qnot_le_lt. intros Hle. apply Qle_bool_iff in Hle. congruence.
  - intros H. destruct (Qle_bool y x) eqn:E; [|reflexivity].
    apply Qle_bool_iff in E. exfalso. exact (Qlt_not_le _ _ H E).
Qed.

Lemma Qlt_bool_Rlt (x y : Q) : Qlt_bool x y = true <-> (Q2R x < Q2R y)%R.
Proof.
  rewrite Qlt_bool_iff. split; [apply Qlt_Rlt | apply Rlt_Qlt].
Qed.

Lemma sqrt_lt_iff (v t : R) : (0 <= v)%R -> (sqrt v < t <-> 0 < t /\ v < t * t)%R.
Proof.
  intros Hv. split.
  - intros H. pose proof (sqrt_pos v) as Hs.
    split; [lra|]. rewrite <- (sqrt_sqrt v Hv) at 1. nra.
  - intros [Ht Hvt].
    rewrite <- (sqrt_square t) by lra.
    apply sqrt_lt_1_alt. lra.
Qed.

Lemma Rsum_sq_nonneg (l : list Z) (mu : R) :
  (0 <= Rsum (map (fun v => (IZR v - mu) * (IZR v - mu))%R l))%R.
Proof.
  unfold Rsum. induction l as [|v l IH]; simpl; [lra|].
  pose proof (Rle_0_sqr (IZR v - mu)) as Hsq. unfold Rsqr in Hsq. lra.
Qed.

Lemma Stat_mean_real (band : list Z) :
  band <> [] ->
  exists m, Stat_mean (ImageStat_Stat band) = Ok m /\ Q2R m = luminance_mean band.
Proof.
  intros Hne. unfold Stat_mean, ImageStat_Stat. cbn [count sum].
  assert (Hlen : Z.of_nat (length band) <> 0) by (destruct band; [congruence|simpl; lia]).
  destruct (Z.eqb_spec (Z.of_nat (length band)) 0); [contradiction|].
  eexists. split; [reflexivity|].
  rewrite Q2R_div, !Q2R_inject_Z.
  - unfold luminance_mean. rewrite IZR_sum, <- INR_IZR_INZ. reflexivity.
  - intros H. apply Hlen. unfold Qeq in H. simpl in H. lia.
Qed.

Lemma Stat_var_real (band : list Z) :
  band <> [] ->
  exists v, Stat_var (ImageStat_Stat band) = Ok v /\
    Q2R v = (Rsum (map (fun x => (IZR x - luminance_mean band) * (IZR x - luminance_mean band))%R band)
             / INR (length band))%R.
Proof.
  intros Hne. unfold Stat_var, ImageStat_Stat. cbn [count sum sum2].
  assert (Hlen : Z.of_nat (length band) <> 0) by (destruct band; [congruence|simpl; lia]).
  destruct (Z.eqb_spec (Z.of_nat (length band)) 0); [contradiction|].
  eexists. split; [reflexivity|].
  assert (Hq : ~ (inject_Z (Z.of_nat (length band)) == 0)%Q).
  { intros H. apply Hlen. unfold Qeq in H. simpl in H. lia. }
  rewrite Q2R_div, Q2R_minus, Q2R_div, Q2R_mult, !Q2R_inject_Z by exact Hq.
  rewrite sum_sq_dev. unfold luminance_mean.
  rewrite IZR_sum, IZR_sum2, <- INR_IZR_INZ.
  assert (Hn : INR (length band) <> 0%R).
  { apply not_0_INR. destruct band; [congruence|simpl; lia]. }
  field. exact Hn.
Qed.

Lemma is_empty_tile_real (tile : Tile) (threshold : Q) :
  gray tile <> [] ->
  exists b, is_empty_tile tile threshold = Ok b /\
    (b = true <->
     (luminance_stddev (gray tile) < Q2R threshold)%R /\
     (luminance_mean (gray tile) < 40)%R).
Proof.
  intros Hne.
  destruct (Stat_mean_real (gray tile) Hne) as [m [Hm Hmr]].
  destruct (Stat_var_real (gray tile) Hne) as [v [Hv Hvr]].
  unfold is_empty_tile, Stat_stddev_lt. rewrite Hv, Hm. cbn [bind].
  assert (Hflat : Qlt_bool 0 threshold && Qlt_bool v (threshold * threshold) = true
                  <-> (luminance_stddev (gray tile) < Q2R threshold)%R).
  { unfold luminance_stddev. cbv zeta. rewrite <- Hvr.
    rewrite sqrt_lt_iff.
    - rewrite andb_true_iff, !Qlt_bool_Rlt, Q2R_mult.
      replace (Q2R 0) with 0%R by (unfold Q2R; simpl; lra). reflexivity.
    - rewrite Hvr. apply Rmult_le_pos; [apply Rsum_sq_nonneg|].
      left. apply Rinv_0_lt_compat. apply lt_0_INR.
      destruct (gray tile); [congruence|simpl; lia]. }
  assert (Hdark : Qlt_bool m 40 = true <-> (luminance_mean (gray tile) < 40)%R).
  { rewrite Qlt_bool_Rlt, Hmr.
    replace (Q2R 40) with 40%R by (unfold Q2R; simpl; lra). reflexivity. }
  destruct (Qlt_bool 0 threshold && Qlt_bool v (threshold * threshold)) eqn:E;
    cbn [bind].
  - exists (Qlt_bool m 40). split; [reflexivity|].
    rewrite Hdark. split; [intros H; split; [apply Hflat; reflexivity|exact H]|tauto].
  - exists false. split; [reflexivity|].
    split; [discriminate|]. intros [H _]. apply Hflat in H. discriminate.
Qed.

Lemma uniform_mean (v : Z) (band : list Z) :
  band <> [] -> Forall (eq v) band -> luminance_mean band = IZR v.
Proof.
  intros Hne Hall. unfold luminance_mean.
  assert (Hsum : Rsum (map IZR band) = (INR (length band) * IZR v)%R).
  { clear Hne. unfold Rsum. induction Hall as [|x l Hx _ IH].
    - simpl. ring.
    - subst x. cbn [map fold_right length]. rewrite IH, S_INR. ring. }
  rewrite Hsum. field. apply not_0_INR. destruct band; [congruence|simpl; lia].
Qed.

Lemma uniform_stddev (v : Z) (band : list Z) :
  band <> [] -> Forall (eq v) band -> luminance_stddev band = 0%R.
Proof.
  intros Hne Hall. unfold luminance_stddev. cbv zeta.
  rewrite (uniform_mean v band Hne Hall).
  assert (Hsum : Rsum (map (fun x => (IZR x - IZR v) * (IZR x - IZR v))%R band) = 0%R).
  { clear Hne. unfold Rsum. induction Hall as [|x l Hx _ IH].
    - reflexivity.
    - subst x. cbn [map fold_right]. rewrite IH. ring. }
  rewrite Hsum. unfold Rdiv. rewrite Rmult_0_l. apply sqrt_0.
Qed.

Lemma is_empty_tile_uniform (v : Z) (tile : Tile) (threshold : Q) :
  uniform_tile v tile ->
  is_empty_tile tile threshold = Ok (Qlt_bool 0 threshold && (v <? 40)).
Proof.
  intros [Hne Hall].
  destruct (is_empty_tile_real tile threshold Hne) as [b [Hrun Hb]].
  rewrite Hrun. f_equal.
  rewrite (uniform_stddev v _ Hne Hall), (uniform_mean v _ Hne Hall) in Hb.
  assert (H0 : Qlt_bool 0 threshold = true <-> (0 < Q2R threshold)%R).
  { rewrite Qlt_bool_Rlt. replace (Q2R 0) with 0%R by (unfold Q2R; simpl; lra). reflexivity. }
  assert (H40 : (v <? 40) = true <-> (IZR v < 40)%R).
  { rewrite Z.ltb_lt. split; [apply IZR_lt | apply lt_IZR]. }
  destruct b.
  - symmetry. apply andb_true_iff. rewrite H0, H40. apply Hb. reflexivity.
  - destruct (Qlt_bool 0 threshold && (v <? 40)) eqn:E; [|reflexivity].
    apply andb_true_iff in E. rewrite H0, H40 in E. apply Hb in E. discriminate.
Qed.



(** *** The Hamming distance and the duplicate test *)

Lemma bit_count_step (z : Z) :
  0 <= z -> bit_count z = (if Z.odd z then 1 else 0) + bit_count (Z.div2 z).
Proof.
  intros Hz. destruct z as [|p|p]; [reflexivity| |lia].
  destruct p; reflexivity.
Qed.

Lemma bit_count_set_bits (n : nat) (z : Z) :
  0 <= z ->
  (forall i, Z.of_nat n <= i -> Z.testbit z i = false) ->
  bit_count z = Z.of_nat (length (List.filter (Z.testbit z) (range (Z.of_nat n)))).
Proof.
  revert z. induction n as [|n IH]; intros z Hz Hhigh.
  - assert (z = 0) as ->; [|reflexivity].
    apply Z.bits_inj'. intros i Hi. rewrite Z.bits_0. apply Hhigh. simpl. lia.
  - rewrite bit_count_step by exact Hz.
    rewrite range_0_S. cbn [List.filter].
    rewrite (IH (Z.div2 z)).
    + rewrite Z.bit0_odd.
      assert (Htail : length (List.filter (Z.testbit z) (map Z.succ (range (Z.of_nat n))))
                      = length (List.filter (Z.testbit (Z.div2 z)) (range (Z.of_nat n)))).
      { rewrite filter_map_length. apply filter_length_ext.
        intros i Hi. apply in_range in Hi. rewrite Z.div2_div, Z.div2_bits by lia. reflexivity. }
      destruct (Z.odd z); cbn [length]; rewrite Htail; lia.
    + apply Z.div2_nonneg. exact Hz.
    + intros i Hi. rewrite Z.div2_div, Z.div2_bits by lia. apply Hhigh. lia.
Qed.

Lemma testbit_above (w a i : Z) : 0 <= a < 2 ^ w -> w <= i -> Z.testbit a i = false.
Proof.
  intros [Ha Hw] Hi.
  destruct (Z.eq_dec a 0) as [->|Hne]; [apply Z.bits_0|].
  apply Z.bits_above_log2; [exact Ha|].
  assert (Z.log2 a < w) by (apply Z.log2_lt_pow2; lia). lia.
Qed.

Lemma hamming_distance_differing_bits (a b w : Z) :
  0 <= a < 2 ^ w -> 0 <= b < 2 ^ w ->
  hamming_distance a b = differing_bits a b w.
Proof.
  intros Ha Hb. unfold hamming_distance, differing_bits.
  assert (Hw : 0 <= w).
  { destruct (Z.leb_spec 0 w); [assumption|]. rewrite Z.pow_neg_r in Ha by lia. lia. }
  rewrite (bit_count_set_bits (Z.to_nat w)).
  - rewrite Z2Nat.id by exact Hw. f_equal. apply filter_length_ext.
    intros i _. apply Z.lxor_spec.
  - apply Z.lxor_nonneg. lia.
  - intros i Hi. rewrite Z2Nat.id in Hi by exact Hw.
    rewrite Z.lxor_spec, (testbit_above w a), (testbit_above w b) by lia. reflexivity.
Qed.

Lemma hamming_distance_refl (f : Z) : hamming_distance f f = 0.
Proof. unfold hamming_distance. rewrite Z.lxor_nilpotent. reflexivity. Qed.

Lemma hamming_distance_sym (a b : Z) : hamming_distance a b = hamming_distance b a.
Proof. unfold hamming_distance. rewrite Z.lxor_comm. reflexivity. Qed.

Lemma any_within_iff (h threshold : Z) (kept : list Z) :
  any_within h threshold kept = true <->
  exists k, In k kept /\ hamming_distance h k <= threshold.
Proof.
  unfold any_within. rewrite existsb_exists.
  split; intros [k [Hin Hk]]; exists k; (split; [exact Hin|]); apply Z.leb_le; exact Hk.
Qed.



(** *** The fallback name *)

Lemma format_02d_two_digits (idx : Z) :
  0 <= idx < 100 -> format_02d idx = two_digits idx.
Proof.
  intros H.
  assert (Hall : forallb (fun i => String.eqb (format_02d i) (two_digits i)) (range 100) = true)
    by (vm_compute; reflexivity).
  rewrite forallb_forall in Hall.
  apply String.eqb_eq. apply Hall. apply in_range. exact H.
Qed.

Lemma pretty_N_go_length (x : N) (s : string) :
  (String.length s <= String.length (pretty_N_go x s))%nat.
Proof.
  revert s. induction (N.lt_wf_0 x) as [x _ IH]; intros s.
  destruct (N.eq_dec x 0%N) as [->|Hx]; [rewrite pretty_N_go_0; lia|].
  rewrite pretty_N_go_step by lia.
  etransitivity; [|apply IH; apply N.div_lt; lia]. simpl. lia.
Qed.

Lemma pretty_N_go_length_pos (x : N) (s : string) :
  (0 < x)%N -> (S (String.length s) <= String.length (pretty_N_go x s))%nat.
Proof.
  intros Hx. rewrite pretty_N_go_step by exact Hx.
  etransitivity; [|apply pretty_N_go_length]. simpl. lia.
Qed.

Lemma pretty_Z_length (idx : Z) :
  10 <= idx -> (2 <= String.length (pretty idx))%nat.
Proof.
  intros H. destruct idx as [|p|p]; try lia.
  unfold pretty, pretty_Z, pretty, pretty_positive, pretty, pretty_N.
  destruct (decide (N.pos p = 0%N)) as [Hp|_]; [discriminate|].
  rewrite pretty_N_go_step by lia.
  etransitivity; [|apply pretty_N_go_length_pos].
  - simpl. lia.
  - apply N.div_str_pos. lia.
Qed.

Lemma format_02d_wide (idx : Z) : 10 <= idx -> format_02d idx = pretty idx.
Proof.
  intros H. unfold format_02d.
  pose proof (pretty_Z_length idx H) as Hlen.
  destruct (Nat.ltb_spec (String.length (pretty idx)) 2); [lia|reflexivity].
Qed.

(** C7.  Without a preset name the resolved name is the prefix, an
    underscore and the index [r * cols + c + 1] written with at least two
    decimal digits, and that is the name a run without preset writes the
    cell under; with seven columns cell (0, 0) gets [prefix_01] and cell
    (1, 0) gets [prefix_08]. *)
Theorem fallback_name_is_prefix_and_padded_index (args : Args) (r c : Z) :
  let idx := r * cols args + c + 1 in
  (preset args = preset_none ->
   preset_lookup (preset args) (r + 1) (c + 1) = Some None) /\
  resolve_filename args None r c = prefix args +:+ "_" +:+ format_02d idx /\
  (preset args = preset_none ->
   forall img cell_w cell_h st tile h filename,
     reaches_write args img cell_w cell_h r c st tile h filename ->
     filename = prefix args +:+ "_" +:+ format_02d idx) /\
  (0 <= idx < 100 -> format_02d idx = two_digits idx) /\
  (100 <= idx -> format_02d idx = pretty idx) /\
  (cols args = 7 ->
   resolve_filename args None 0 0 = prefix args +:+ "_01" /\
   resolve_filename args None 1 0 = prefix args +:+ "_08").
Proof.
  intros idx. split; [intros ->; reflexivity|].
  split; [reflexivity|].
  split.
  { intros Hnone img cell_w cell_h st tile h filename [mapped [Hl [_ [_ [_ [_ [Hn _]]]]]]].
    rewrite Hnone in Hl. cbn [preset_lookup] in Hl. injection Hl as <-. exact Hn. }
  split; [apply format_02d_two_digits|].
  split; [intros H; apply format_02d_wide; lia|].
  intros Hc. unfold resolve_filename. rewrite Hc. split; reflexivity.
Qed.

Lemma fallback_name_is_prefix_and_padded_index_witness :
  preset_lookup (preset default_args) (1 + 1) (0 + 1) = Some None /\
  resolve_filename default_args None 0 0 = "portrait_01" /\
  resolve_filename default_args None 1 0 = "portrait_08" /\
  format_02d (1 * 7 + 0 + 1) = two_digits (1 * 7 + 0 + 1) /\
  format_02d (20 * 7 + 0 + 1) = pretty (20 * 7 + 0 + 1).
Proof.
  destruct (fallback_name_is_prefix_and_padded_index default_args 1 0)
    as [Hpreset [_ [_ [Hshort [_ Hseven]]]]].
  destruct (fallback_name_is_prefix_and_padded_index default_args 20 0)
    as [_ [_ [_ [_ [Hwide _]]]]].
  split; [apply Hpreset; reflexivity|].
  split; [apply Hseven; reflexivity|].
  split; [apply Hseven; reflexivity|].
  split; [apply Hshort; simpl; lia|apply Hwide; simpl; lia].
Defined.

Example format_02d_examples :
  format_02d 1 = "01" /\ format_02d 8 = "08" /\ format_02d 28 = "28" /\
  format_02d 123 = "123" /\ format_02d (-1) = "-1".
Proof. vm_compute. repeat split. Qed.

Example officer_preset_examples :
  preset_lookup preset_officers_4x6 1 1 = Some (Some "dong_zhuo") /\
  preset_lookup preset_officers_4x6 2 6 = None /\
  preset_lookup preset_officers_4x6 1 7 = None.
Proof. vm_compute. repeat split. Qed.

Lemma fallback_names_distinct (p q : Z) :
  0 <= p < 28 -> 0 <= q < 28 ->
  resolve_filename default_args None (p / 7) (p mod 7)
  = resolve_filename default_args None (q / 7) (q mod 7) ->
  p = q.
Proof.
  intros Hp Hq Heq.
  assert (Hall : forallb (fun i => forallb (fun j =>
             implb (String.eqb (resolve_filename default_args None (i / 7) (i mod 7))
                               (resolve_filename default_args None (j / 7) (j mod 7)))
                   (i =? j)) (range 28)) (range 28) = true)
    by (vm_compute; reflexivity).
  rewrite forallb_forall in Hall.
  specialize (Hall p (proj2 (in_range 28 p) Hp)).
  rewrite forallb_forall in Hall.
  specialize (Hall q (proj2 (in_range 28 q) Hq)).
  apply String.eqb_eq in Heq. rewrite Heq in Hall. simpl in Hall.
  apply Z.eqb_eq. exact Hall.
Qed.

(** *** One cell, and the loop over the cells *)

Lemma cell_body_step (args : Args) (env : Env) (img : Sheet) (cell_w cell_h r c : Z)
    (st : State) :
  cell_step args env img cell_w cell_h r c st
    (cell_body args env img cell_w cell_h r c st).
Proof.
  unfold cell_body.
  destruct (preset_lookup (preset args) (r + 1) (c + 1)) as [mapped|] eqn:Hp;
    [|apply step_preset_skip; exact Hp].
  destruct (crop img (cell_box args cell_w cell_h r c)) as [tile|e] eqn:Hc;
    [|eapply step_crop_raises; eassumption].
  destruct (is_empty_tile tile (empty_threshold args)) as [[|]|e] eqn:He;
    [eapply step_empty; eassumption| |eapply step_stat_raises; eassumption].
  destruct (dhash tile 8) as [h|e] eqn:Hh;
    [|eapply step_hash_raises; eassumption].
  cbn [kept_hashes note_crop].
  destruct (is_duplicate args h (kept_hashes st)) eqn:Hd;
    [eapply step_duplicate; eassumption|].
  cbn [used_names note_crop].
  destruct (bool_decide (resolve_filename args mapped r c ∈ used_names st)) eqn:Hu.
  - apply bool_decide_eq_true in Hu. eapply step_collision; eassumption.
  - apply bool_decide_eq_false in Hu.
    destruct (save env (resolve_filename args mapped r c) tile) as [u|e] eqn:Hs.
    + eapply step_written; eassumption.
    + eapply step_save_raises; eassumption.
Qed.

Lemma cell_body_counts_one (args : Args) (env : Env) (img : Sheet)
    (cell_w cell_h r c : Z) (st st' : State) :
  cell_body args env img cell_w cell_h r c st = Done st' ->
  total_counted st' = total_counted st + 1.
Proof.
  intros H. pose proof (cell_body_step args env img cell_w cell_h r c st) as Hs.
  rewrite H in Hs. inversion Hs; subst; unfold total_counted; simpl; lia.
Qed.

Lemma cell_body_names (args : Args) (env : Env) (img : Sheet)
    (cell_w cell_h r c : Z) (st : State) :
  names_consistent st ->
  match cell_body args env img cell_w cell_h r c st with
  | Done st' => names_consistent st'
  | Raised _ st' => NoDup (save_calls st')
  end.
Proof.
  intros [Hnd Hin].
  destruct (cell_body_step args env img cell_w cell_h r c st);
    try (split; [exact Hnd|exact Hin]); try exact Hnd; simpl.
  - (* save raised *)
    apply NoDup_app. split; [exact Hnd|]. split; [|apply NoDup_singleton].
    intros n Hn Hn'. apply list_elem_of_singleton in Hn'. subst n.
    apply Hin in Hn. contradiction.
  - (* written *)
    split; simpl.
    + apply NoDup_app. split; [exact Hnd|]. split; [|apply NoDup_singleton].
      intros n Hn Hn'. apply list_elem_of_singleton in Hn'. subst n.
      apply Hin in Hn. contradiction.
    + intros n Hn. apply elem_of_app in Hn. destruct Hn as [Hn|Hn].
      * apply elem_of_union_l. apply Hin. exact Hn.
      * apply list_elem_of_singleton in Hn. subst n.
        apply elem_of_union_r. apply elem_of_singleton. reflexivity.
Qed.

Lemma cell_body_used_names_grow (args : Args) (env : Env) (img : Sheet)
    (cell_w cell_h r c : Z) (st : State) :
  used_names st ⊆ used_names (final_state (cell_body args env img cell_w cell_h r c st)).
Proof.
  destruct (cell_body_step args env img cell_w cell_h r c st); simpl; set_solver.
Qed.

Lemma cell_body_crop_calls (args : Args) (env : Env) (img : Sheet)
    (cell_w cell_h r c : Z) (st : State) :
  exists suffix,
    crop_calls (final_state (cell_body args env img cell_w cell_h r c st))
    = crop_calls st ++ suffix.
Proof.
  destruct (cell_body_step args env img cell_w cell_h r c st); simpl;
    try (exists []; rewrite app_nil_r; reflexivity); eexists; reflexivity.
Qed.

Lemma cell_body_crops (args : Args) (env : Env) (img : Sheet)
    (cell_w cell_h r c : Z) (st : State) mapped :
  preset_lookup (preset args) (r + 1) (c + 1) = Some mapped ->
  exists suffix,
    crop_calls (final_state (cell_body args env img cell_w cell_h r c st))
    = crop_calls st ++ cell_box args cell_w cell_h r c :: suffix.
Proof.
  intros Hp.
  destruct (cell_body_step args env img cell_w cell_h r c st); simpl;
    try congruence; exists []; reflexivity.
Qed.

Lemma first_cell_lookup (p : Preset) : exists mapped, preset_lookup p (0 + 1) (0 + 1) = Some mapped.
Proof. destruct p; eexists; reflexivity. Qed.

Lemma for_state_crop_calls (body : Z -> State -> Outcome) (l : list Z) (st : State) :
  (forall i s, exists suffix,
      crop_calls (final_state (body i s)) = crop_calls s ++ suffix) ->
  exists suffix, crop_calls (final_state (for_state l body st)) = crop_calls st ++ suffix.
Proof.
  intros Hbody.
  apply (for_state_preorder
           (fun s s' => exists suffix, crop_calls s' = crop_calls s ++ suffix)).
  - intros s. exists []. rewrite app_nil_r. reflexivity.
  - intros s1 s2 s3 [suf1 H1] [suf2 H2]. exists (suf1 ++ suf2).
    rewrite H2, H1, app_assoc. reflexivity.
  - exact Hbody.
Qed.

Lemma main_loop_names (args : Args) (env : Env) (img : Sheet) (cell_w cell_h : Z)
    (st : State) :
  names_consistent st ->
  match main_loop args env img cell_w cell_h st with
  | Done st' => names_consistent st'
  | Raised _ st' => NoDup (save_calls st')
  end.
Proof.
  unfold main_loop. apply for_state_inv. intros r s Hs.
  apply for_state_inv; [|exact Hs]. intros c s' Hs'. apply cell_body_names. exact Hs'.
Qed.

Lemma main_loop_used_names_grow (args : Args) (env : Env) (img : Sheet)
    (cell_w cell_h : Z) (st : State) :
  used_names st ⊆ used_names (final_state (main_loop args env img cell_w cell_h st)).
Proof.
  unfold main_loop.
  apply (for_state_preorder (fun s s' => used_names s ⊆ used_names s'));
    [set_solver|set_solver|].
  intros r s.
  apply (for_state_preorder (fun s s' => used_names s ⊆ used_names s'));
    [set_solver|set_solver|].
  intros c s'. apply cell_body_used_names_grow.
Qed.

Lemma main_loop_counts (args : Args) (env : Env) (img : Sheet) (cell_w cell_h : Z)
    (st st' : State) :
  main_loop args env img cell_w cell_h st = Done st' ->
  total_counted st' = total_counted st + Z.max 0 (rows args) * Z.max 0 (cols args).
Proof.
  unfold main_loop. intros H.
  apply (for_state_count total_counted (Z.max 0 (cols args))) in H.
  - rewrite length_range in H. lia.
  - intros r s s' Hrow.
    apply (for_state_count total_counted 1) in Hrow.
    + rewrite length_range in Hrow. lia.
    + intros c s1 s2. apply cell_body_counts_one.
Qed.

Lemma main_counts (args : Args) (env : Env) (st : State) :
  main args env = Done st ->
  total_counted st = Z.max 0 (rows args) * Z.max 0 (cols args).
Proof.
  unfold main.
  destruct (open_image env) as [img|e]; [|discriminate].
  destruct (cell_extent _ _ _ _) as [cw|e]; [|discriminate].
  destruct (cell_extent _ _ _ _) as [ch|e]; [|discriminate].
  destruct (mkdir env) as [u|e]; [|discriminate].
  intros H. apply main_loop_counts in H. exact H.
Qed.

Lemma initial_state_consistent : names_consistent initial_state.
Proof. split; simpl; [constructor|intros n Hn; inversion Hn]. Qed.

Lemma main_save_calls_NoDup (args : Args) (env : Env) :
  NoDup (save_calls (final_state (main args env))).
Proof.
  unfold main.
  destruct (open_image env) as [img|e]; [|simpl; constructor].
  destruct (cell_extent _ _ _ _) as [cw|e]; [|simpl; constructor].
  destruct (cell_extent _ _ _ _) as [ch|e]; [|simpl; constructor].
  destruct (mkdir env) as [u|e]; [|simpl; constructor].
  pose proof (main_loop_names args env img cw ch initial_state initial_state_consistent) as H.
  destruct (main_loop args env img cw ch initial_state); simpl; [apply H|exact H].
Qed.

(** *** The used names *)

(** C8.  In every run the names handed to [save] are pairwise distinct; the
    set of used names only grows, over one cell and over the whole loop;
    and a cell whose resolved name is already in the set is skipped without
    a write, counted under the preset-filtered cells. *)
Theorem written_filenames_pairwise_distinct (args : Args) (env : Env) :
  NoDup (save_calls (final_state (main args env))) /\
  (forall img cell_w cell_h st,
     used_names st ⊆ used_names (final_state (main_loop args env img cell_w cell_h st))) /\
  (forall img cell_w cell_h r c st,
     used_names st ⊆ used_names (final_state (cell_body args env img cell_w cell_h r c st))) /\
  (forall img cell_w cell_h r c st mapped tile h,
     preset_lookup (preset args) (r + 1) (c + 1) = Some mapped ->
     crop img (cell_box args cell_w cell_h r c) = Ok tile ->
     is_empty_tile tile (empty_threshold args) = Ok false ->
     dhash tile 8 = Ok h ->
     is_duplicate args h (kept_hashes st) = false ->
     resolve_filename args mapped r c ∈ used_names st ->
     exists st',
       cell_body args env img cell_w cell_h r c st = Done st' /\
       save_calls st' = save_calls st /\
       used_names st' = used_names st /\
       written st' = written st /\
       skipped_by_preset st' = skipped_by_preset st + 1).
Proof.
  split; [apply main_save_calls_NoDup|].
  split; [intros; apply main_loop_used_names_grow|].
  split; [intros; apply cell_body_used_names_grow|].
  intros img cell_w cell_h r c st mapped tile h Hp Hc He Hh Hd Hu.
  unfold cell_body. rewrite Hp, Hc, He, Hh. cbn [kept_hashes used_names note_crop].
  rewrite Hd. rewrite bool_decide_eq_true_2 by exact Hu.
  eexists. split; [reflexivity|]. simpl. repeat split.
Qed.

Lemma written_filenames_pairwise_distinct_witness :
  NoDup (save_calls (final_state (main default_args example_env))) /\
  exists st',
    cell_body default_args (flat_env 200 1000 600) (flat_sheet 200 1000 600)
      127 133 0 0 state_with_first_name = Done st' /\
    save_calls st' = save_calls state_with_first_name /\
    skipped_by_preset st' = 1.
Proof.
  split.
  - apply (proj1 (written_filenames_pairwise_distinct default_args example_env)).
  - destruct (proj2 (proj2 (proj2 (written_filenames_pairwise_distinct default_args
                 (flat_env 200 1000 600))))
                (flat_sheet 200 1000 600) 127 133 0 0 state_with_first_name
                None (flat_tile 200 127 133) 0)
      as [st' [Hrun [Hsaves [_ [_ Hskip]]]]].
    + reflexivity.
    + reflexivity.
    + vm_compute. reflexivity.
    + vm_compute. reflexivity.
    + vm_compute. reflexivity.
    + apply elem_of_union_r. apply elem_of_singleton. reflexivity.
    + exists st'. split; [exact Hrun|]. split; [exact Hsaves|exact Hskip].
Defined.

Lemma failed_write_leaves_name_out :
  ~ name_added_before_write default_args (read_only_env 200 1000 600)
      (flat_sheet 200 1000 600) 127 133 0 0 initial_state.
Proof.
  intros H.
  specialize (H (flat_tile 200 127 133) 0 "portrait_01").
  assert (Hrun : cell_body default_args (read_only_env 200 1000 600)
                   (flat_sheet 200 1000 600) 127 133 0 0 initial_state
                 = Raised OSError
                     (note_save "portrait_01" (note_crop (12, 12, 139, 145) initial_state))).
  { vm_compute. reflexivity. }
  rewrite Hrun in H. simpl in H.
  apply (not_elem_of_empty (C := gset string) "portrait_01"). apply H.
  exists None. repeat (split; [vm_compute; reflexivity|]).
  apply not_elem_of_empty.
Qed.

(** C2, as amended.  For a cell that reaches the write, the resolved name
    is not in the set of used names when [save] is called; if [save]
    raises, the run ends there with the name still absent; if [save]
    returns, the name is added afterwards. *)
Theorem name_is_added_after_the_write (args : Args) (env : Env) (img : Sheet)
    (cell_w cell_h r c : Z) (st : State) (tile : Tile) (h : Z) (filename : string) :
  reaches_write args img cell_w cell_h r c st tile h filename ->
  let at_write := note_save filename (note_crop (cell_box args cell_w cell_h r c) st) in
  (filename ∉ used_names at_write) /\
  (forall e, save env filename tile = Raise e ->
     cell_body args env img cell_w cell_h r c st = Raised e at_write) /\
  (forall u, save env filename tile = Ok u ->
     cell_body args env img cell_w cell_h r c st
       = Done (record_written h filename at_write) /\
     filename ∈ used_names (record_written h filename at_write)).
Proof.
  intros [mapped [Hp [Hc [He [Hh [Hd [-> Hu]]]]]]] at_write.
  split; [exact Hu|].
  assert (Hbody : cell_body args env img cell_w cell_h r c st
                  = match save env (resolve_filename args mapped r c) tile with
                    | Raise e => Raised e at_write
                    | Ok _ => Done (record_written h (resolve_filename args mapped r c) at_write)
                    end).
  { unfold cell_body. rewrite Hp, Hc, He, Hh. cbn [kept_hashes used_names note_crop].
    rewrite Hd. rewrite bool_decide_eq_false_2 by exact Hu. reflexivity. }
  split.
  - intros e Hs. rewrite Hbody, Hs. reflexivity.
  - intros u Hs. rewrite Hbody, Hs. split; [reflexivity|].
    simpl. apply elem_of_union_r. apply elem_of_singleton. reflexivity.
Qed.

Lemma name_is_added_after_the_write_witness :
  cell_body default_args (read_only_env 200 1000 600) (flat_sheet 200 1000 600)
    127 133 0 0 initial_state
  = Raised OSError
      (note_save "portrait_01" (note_crop (12, 12, 139, 145) initial_state)).
Proof.
  refine (proj1 (proj2 (name_is_added_after_the_write default_args
            (read_only_env 200 1000 600) (flat_sheet 200 1000 600)
            127 133 0 0 initial_state (flat_tile 200 127 133) 0 "portrait_01" _))
            OSError eq_refl).
  exists None. repeat (split; [vm_compute; reflexivity|]).
  apply not_elem_of_empty.
Defined.

(** *** The cell size *)

Lemma small_sheet_is_cropped :
  cell_extent 100 (cols default_args) (margin default_args) (gap default_args) = Ok (-2) /\
  cell_extent 100 (rows default_args) (margin default_args) (gap default_args) = Ok 8 /\
  ~ fails_before_cropping default_args (flat_env 128 100 100).
Proof.
  split; [reflexivity|]. split; [reflexivity|].
  intros [e [st [Hrun [Hcrop _]]]].
  assert (Hmain : main default_args (flat_env 128 100 100)
                  = Raised ValueError (note_crop (12, 12, 10, 20) initial_state))
    by (vm_compute; reflexivity).
  rewrite Hmain in Hrun. inversion Hrun; subst. discriminate.
Qed.

(** C1, as amended.  The computed cell size is not validated.  With at
    least one row and one column, an opened sheet and an output directory,
    the cell width and height are the floor quotients of lines 88-89 and
    the first cell is cropped with the box
    [(margin, margin, margin + cell_w, margin + cell_h)], whatever the sign
    of [cell_w] and [cell_h]. *)
Theorem cell_size_is_not_validated (args : Args) (env : Env) (img : Sheet) :
  open_image env = Ok img ->
  mkdir env = Ok tt ->
  1 <= rows args -> 1 <= cols args ->
  let cell_w := (width img - 2 * margin args - (cols args - 1) * gap args) / cols args in
  let cell_h := (height img - 2 * margin args - (rows args - 1) * gap args) / rows args in
  cell_extent (width img) (cols args) (margin args) (gap args) = Ok cell_w /\
  cell_extent (height img) (rows args) (margin args) (gap args) = Ok cell_h /\
  exists rest,
    crop_calls (final_state (main args env))
    = (margin args, margin args, margin args + cell_w, margin args + cell_h) :: rest.
Proof.
  intros Hopen Hmk Hr Hc cell_w cell_h.
  assert (Hw : cell_extent (width img) (cols args) (margin args) (gap args) = Ok cell_w).
  { unfold cell_extent, floordiv. destruct (Z.eqb_spec (cols args) 0); [lia|reflexivity]. }
  assert (Hh : cell_extent (height img) (rows args) (margin args) (gap args) = Ok cell_h).
  { unfold cell_extent, floordiv. destruct (Z.eqb_spec (rows args) 0); [lia|reflexivity]. }
  split; [exact Hw|]. split; [exact Hh|].
  unfold main. rewrite Hopen, Hw, Hh, Hmk. unfold main_loop.
  set (row_body := fun r => for_state (range (cols args))
                               (fun c => cell_body args env img cell_w cell_h r c)).
  destruct (range_pos _ Hr) as [lr ->]. destruct (range_pos _ Hc) as [lc Hlc].
  cbn [for_state].
  assert (Hrow0 : row_body 0 initial_state
                  = match cell_body args env img cell_w cell_h 0 0 initial_state with
                    | Done s1 => for_state lc (fun c => cell_body args env img cell_w cell_h 0 c) s1
                    | Raised e s1 => Raised e s1
                    end).
  { unfold row_body. rewrite Hlc. reflexivity. }
  rewrite Hrow0. clear Hrow0.
  destruct (first_cell_lookup (preset args)) as [mapped Hp].
  destruct (cell_body_crops args env img cell_w cell_h 0 0 initial_state mapped Hp)
    as [suf Hsuf].
  assert (Hbox : cell_box args cell_w cell_h 0 0
                 = (margin args, margin args, margin args + cell_w, margin args + cell_h)).
  { unfold cell_box. f_equal; [f_equal; [f_equal|]|]; lia. }
  rewrite Hbox in Hsuf. simpl in Hsuf.
  destruct (cell_body args env img cell_w cell_h 0 0 initial_state) as [s1|e s1];
    simpl in Hsuf; [|exists suf; exact Hsuf].
  destruct (for_state_crop_calls (fun c => cell_body args env img cell_w cell_h 0 c) lc s1)
    as [suf1 Hsuf1]; [intros; apply cell_body_crop_calls|].
  destruct (for_state lc _ s1) as [s2|e s2]; simpl in Hsuf1;
    [|exists (suf ++ suf1); simpl; rewrite Hsuf1, Hsuf; reflexivity].
  destruct (for_state_crop_calls row_body lr s2) as [suf2 Hsuf2].
  { intros i s. apply for_state_crop_calls. intros; apply cell_body_crop_calls. }
  exists (suf ++ suf1 ++ suf2). rewrite Hsuf2, Hsuf1, Hsuf. simpl.
  rewrite <- app_assoc. reflexivity.
Qed.

Lemma cell_size_is_not_validated_witness :
  exists rest,
    crop_calls (final_state (main default_args (flat_env 128 100 100)))
    = (12, 12, 10, 20) :: rest.
Proof.
  apply (cell_size_is_not_validated default_args (flat_env 128 100 100)
           (flat_sheet 128 100 100)).
  - reflexivity.
  - reflexivity.
  - simpl. lia.
  - simpl. lia.
Defined.

(** *** The synthetic sheet *)

Lemma grid_cell_in (i : Z) : 0 <= i < 28 -> in_grid (grid_cell i).
Proof.
  intros H. unfold in_grid, grid_cell. simpl.
  Z.to_euclidean_division_equations. lia.
Qed.

Lemma grid_index_cell (i : Z) : grid_index (grid_cell i) = i.
Proof.
  unfold grid_index, grid_cell. simpl. Z.to_euclidean_division_equations. lia.
Qed.

Lemma grid_cell_index (p : Z * Z) : in_grid p -> grid_cell (grid_index p) = p.
Proof.
  destruct p as [r c]. unfold in_grid, grid_cell, grid_index. simpl. intros H.
  f_equal; Z.to_euclidean_division_equations; lia.
Qed.

Lemma grid_index_range (p : Z * Z) : in_grid p -> 0 <= grid_index p < 28.
Proof. destruct p as [r c]. unfold in_grid, grid_index. simpl. lia. Qed.

Section Synthetic.
Variables (env : Env) (img : Sheet) (tile_at : Z * Z -> Tile).
Variables (black first second : Z * Z).
Hypothesis Hsyn : synthetic_sheet env img tile_at black first second.

Local Abbreviation e := (grid_index black).
Local Abbreviation a := (grid_index first).
Local Abbreviation b := (grid_index second).
Local Abbreviation cw := ((width img - 2 * 12 - (7 - 1) * 14) / 7).
Local Abbreviation ch := ((height img - 2 * 12 - (4 - 1) * 14) / 4).

Lemma synthetic_crop (k : Z) :
  0 <= k < 28 ->
  crop img (cell_box default_args cw ch (k / 7) (k mod 7)) = Ok (tile_at (grid_cell k)).
Proof.
  intros Hk. apply (syn_crop _ _ _ _ _ _ Hsyn (grid_cell k)).
  - apply grid_cell_in. exact Hk.
  - reflexivity.
  - reflexivity.
Qed.

Lemma synthetic_not_black (k : Z) : 0 <= k < 28 -> k <> e -> grid_cell k <> black.
Proof.
  intros Hk Hne Heq. apply Hne. rewrite <- Heq. symmetry. apply grid_index_cell.
Qed.

Lemma synthetic_step (k : Z) (st : State) :
  0 <= k < 28 ->
  synthetic_inv tile_at e a b k st ->
  exists st',
    cell_body default_args env img cw ch (k / 7) (k mod 7) st = Done st' /\
    synthetic_inv tile_at e a b (k + 1) st'.
Proof.
  intros Hk (Hw & Hse & Hsd & Hsp & Hkept & Hfirst & Hnames).
  pose proof (grid_index_range _ (syn_black_in _ _ _ _ _ _ Hsyn)) as He.
  pose proof (grid_index_range _ (syn_first_in _ _ _ _ _ _ Hsyn)) as Ha.
  pose proof (grid_index_range _ (syn_second_in _ _ _ _ _ _ Hsyn)) as Hb.
  pose proof (syn_order _ _ _ _ _ _ Hsyn) as Hab.
  assert (Hae : a <> e).
  { intros Heq. apply (syn_first_not_black _ _ _ _ _ _ Hsyn).
    rewrite <- (grid_cell_index first), <- (grid_cell_index black), Heq;
      [reflexivity|apply Hsyn|apply Hsyn]. }
  assert (Hbe : b <> e).
  { intros Heq. apply (syn_second_not_black _ _ _ _ _ _ Hsyn).
    rewrite <- (grid_cell_index second), <- (grid_cell_index black), Heq;
      [reflexivity|apply Hsyn|apply Hsyn]. }
  unfold cell_body. cbn [preset default_args preset_lookup].
  rewrite (synthetic_crop k Hk).
  destruct (Z.eq_dec k e) as [Hke|Hke].
  - (* the black cell *)
    assert (Hblack : grid_cell k = black)
      by (rewrite Hke; apply grid_cell_index; apply Hsyn).
    rewrite Hblack.
    rewrite (is_empty_tile_uniform 0 _ _ (syn_black _ _ _ _ _ _ Hsyn)).
    cbn [andb]. change (Qlt_bool 0 (empty_threshold default_args) && (0 <? 40)) with true.
    cbv iota. eexists. split; [reflexivity|].
    unfold synthetic_inv. simpl.
    settle_counters Hw Hse Hsd.
    all: repeat split; try lia.
    all: try (intros h Hh; destruct (Hkept h Hh) as [q Hq]; exists q;
              repeat split; try tauto; lia).
    all: try (intros Hlt; apply Hfirst; lia).
    all: try (intros n Hn; destruct (Hnames n Hn) as [q Hq]; exists q; split; [lia|tauto]).
  - pose proof (synthetic_not_black k Hk Hke) as Hnb.
    destruct (syn_content _ _ _ _ _ _ Hsyn (grid_cell k) (grid_cell_in k Hk) Hnb)
      as [Hne [h Hh]].
    rewrite Hne, Hh. cbn [kept_hashes used_names note_crop].
    destruct (Z.eq_dec k b) as [Hkb|Hkb].
    + (* the second of the identical pair *)
      destruct Hfirst as [ha [Hha Hin]]; [lia|].
      assert (Hsame : ha = h).
      { assert (Hc : grid_cell k = second)
          by (rewrite Hkb; apply grid_cell_index; apply Hsyn).
        rewrite Hc, <- (syn_same _ _ _ _ _ _ Hsyn) in Hh.
        rewrite (grid_cell_index first) in Hha by apply Hsyn. congruence. }
      subst ha.
      assert (Hdup : is_duplicate default_args h (kept_hashes st) = true).
      { unfold is_duplicate. cbn [no_dedupe default_args negb andb].
        apply any_within_iff. exists h. split; [exact Hin|].
        rewrite hamming_distance_refl. simpl. lia. }
      rewrite Hdup. eexists. split; [reflexivity|].
      unfold synthetic_inv. simpl.
      settle_counters Hw Hse Hsd.
      all: repeat split; try lia.
      all: try (intros h' Hh'; destruct (Hkept h' Hh') as [q Hq]; exists q;
                repeat split; try tauto; lia).
      all: try (intros _; exists h; split; [|exact Hin];
                rewrite (grid_cell_index first) by apply Hsyn;
                rewrite (syn_same _ _ _ _ _ _ Hsyn);
                rewrite <- (grid_cell_index second) by apply Hsyn;
                rewrite <- Hkb; exact Hh).
      all: try (intros n Hn; destruct (Hnames n Hn) as [q Hq]; exists q; split; [lia|tauto]).
    + (* a cell that is kept *)
      assert (Hdup : is_duplicate default_args h (kept_hashes st) = false).
      { unfold is_duplicate. cbn [no_dedupe default_args negb andb].
        destruct (any_within h (dedupe_hamming default_args) (kept_hashes st)) eqn:E;
          [|reflexivity].
        apply any_within_iff in E. destruct E as [hq [Hin Hclose]].
        destruct (Hkept hq Hin) as [q (Hq & Hqe & Hqb & Hhq)].
        pose proof (syn_distinct _ _ _ _ _ _ Hsyn (grid_cell k) (grid_cell q) h hq
                      (grid_cell_in k Hk) (grid_cell_in q ltac:(lia)) Hnb
                      (synthetic_not_black q ltac:(lia) Hqe)) as Hfar.
        assert (dedupe_hamming default_args < hamming_distance h hq); [|lia].
        apply Hfar; try assumption.
        - intros Heq. apply (f_equal grid_index) in Heq.
          rewrite !grid_index_cell in Heq. lia.
        - intros [_ Heq]. apply Hqb. rewrite <- (grid_index_cell q), Heq. reflexivity.
        - intros [Heq _]. apply Hkb. rewrite <- (grid_index_cell k), Heq. reflexivity. }
      rewrite Hdup.
      set (name := resolve_filename default_args None (k / 7) (k mod 7)).
      assert (Hfree : name ∉ used_names st).
      { intros Hn. destruct (Hnames name Hn) as [q [Hq Heq]].
        apply fallback_names_distinct in Heq; lia. }
      rewrite bool_decide_eq_false_2 by exact Hfree.
      rewrite (syn_save _ _ _ _ _ _ Hsyn).
      eexists. split; [reflexivity|].
      unfold synthetic_inv. simpl.
      settle_counters Hw Hse Hsd.
      all: repeat split; try lia.
      all: try (intros h' Hh'; apply in_app_or in Hh'; destruct Hh' as [Hh'|[<-|[]]];
                [destruct (Hkept h' Hh') as [q Hq]; exists q; repeat split; try tauto; lia
                |exists k; repeat split; try assumption; lia]).
      all: try (intros Hlt; destruct (Z.eq_dec k a) as [Hka|Hka];
                [exists h; split; [rewrite <- Hka; exact Hh|apply in_or_app; right; left; reflexivity]
                |destruct Hfirst as [ha [Hha Hin]]; [lia|];
                 exists ha; split; [exact Hha|apply in_or_app; left; exact Hin]]).
      all: try (intros n Hn; apply elem_of_union in Hn; destruct Hn as [Hn|Hn];
                [destruct (Hnames n Hn) as [q Hq]; exists q; split; [lia|tauto]
                |apply elem_of_singleton in Hn; exists k; split; [lia|exact Hn]]).
Qed.

Lemma synthetic_loop (n : nat) :
  (n <= 28)%nat ->
  exists st,
    for_state (range (Z.of_nat n))
      (fun i => cell_body default_args env img cw ch (i / 7) (i mod 7)) initial_state
    = Done st /\
    synthetic_inv tile_at e a b (Z.of_nat n) st.
Proof.
  pose proof (grid_index_range _ (syn_black_in _ _ _ _ _ _ Hsyn)) as He.
  pose proof (grid_index_range _ (syn_first_in _ _ _ _ _ _ Hsyn)) as Ha.
  pose proof (grid_index_range _ (syn_second_in _ _ _ _ _ _ Hsyn)) as Hb.
  induction n as [|n IH]; intros Hn.
  - exists initial_state. split; [reflexivity|].
    change (Z.of_nat 0) with 0. unfold synthetic_inv. simpl.
    destruct (Z.ltb_spec e 0), (Z.ltb_spec b 0); try lia. simpl.
    repeat split; try lia.
    intros n Hn'. apply not_elem_of_empty in Hn'. destruct Hn'.
  - destruct IH as [st [Hrun Hinv]]; [lia|].
    destruct (synthetic_step (Z.of_nat n) st ltac:(lia) Hinv) as [st' [Hstep Hinv']].
    exists st'. rewrite range_S, for_state_app, Hrun. cbn [for_state].
    rewrite Hstep. split; [reflexivity|].
    replace (Z.of_nat (S n)) with (Z.of_nat n + 1) by lia. exact Hinv'.
Qed.

Lemma synthetic_main :
  exists st,
    main default_args env = Done st /\
    written st = 26 /\ skipped_empty st = 1 /\ skipped_duplicate st = 1 /\
    skipped_by_preset st = 0.
Proof.
  pose proof (grid_index_range _ (syn_black_in _ _ _ _ _ _ Hsyn)) as He.
  pose proof (grid_index_range _ (syn_second_in _ _ _ _ _ _ Hsyn)) as Hb.
  destruct (synthetic_loop 28 ltac:(lia)) as [st [Hrun Hinv]].
  exists st. split.
  - unfold main. rewrite (syn_open _ _ _ _ _ _ Hsyn).
    cbn [cols rows margin gap default_args].
    change (cell_extent (width img) 7 12 14) with (Ok cw).
    change (cell_extent (height img) 4 12 14) with (Ok ch).
    cbv iota. rewrite (syn_mkdir _ _ _ _ _ _ Hsyn).
    unfold main_loop. cbn [cols rows default_args].
    rewrite (grid_flat 4 7) by lia. exact Hrun.
  - destruct Hinv as (Hw & Hse & Hsd & Hsp & _).
    revert Hw Hse Hsd.
    destruct (Z.ltb_spec e (Z.of_nat 28)), (Z.ltb_spec b (Z.of_nat 28)); try lia.
    simpl. intros. repeat split; lia.
Qed.
End Synthetic.

(** The example sheet is an instance of the scenario. *)
Lemma example_is_synthetic :
  synthetic_sheet example_env example_sheet example_tile_at
    example_black example_first example_second.
Proof.
  constructor.
  - reflexivity.
  - reflexivity.
  - reflexivity.
  - intros p cell_w cell_h Hp Hw Hh.
    vm_compute in Hw. vm_compute in Hh. inversion Hw. inversion Hh. subst.
    destruct p as [r c]. unfold in_grid in Hp. cbn [fst snd] in Hp.
    unfold cell_box, example_sheet. cbn [crop margin gap default_args fst snd].
    f_equal. f_equal. f_equal.
    + replace (12 + r * (8 + 14) - 12) with (r * 22) by lia. apply Z.div_mul. lia.
    + replace (12 + c * (9 + 14) - 12) with (c * 23) by lia. apply Z.div_mul. lia.
  - vm_compute. intuition discriminate.
  - vm_compute. intuition discriminate.
  - vm_compute. intuition discriminate.
  - discriminate.
  - discriminate.
  - vm_compute. reflexivity.
  - split; [discriminate|]. vm_compute. repeat constructor.
  - reflexivity.
  - intros p Hp Hnb. grid_cases p Hp;
      try (exfalso; apply Hnb; reflexivity);
      (split; [vm_compute; reflexivity|eexists; vm_compute; reflexivity]).
  - intros p q hp hq Hp Hq Hpb Hqb Hpq Hfs Hsf Hhp Hhq.
    grid_cases p Hp; try (exfalso; apply Hpb; reflexivity);
    grid_cases q Hq; try (exfalso; apply Hqb; reflexivity);
      try (exfalso; apply Hpq; reflexivity);
      try (exfalso; apply Hfs; split; reflexivity);
      try (exfalso; apply Hsf; split; reflexivity);
      vm_compute in Hhp; vm_compute in Hhq;
      injection Hhp as <-; injection Hhq as <-; vm_compute; reflexivity.
Qed.



Example example_run_by_evaluation :
  match main default_args example_env with
  | Done st =>
      (written st, skipped_empty st, skipped_duplicate st, skipped_by_preset st)
      = (26, 1, 1, 0)
  | Raised _ _ => False
  end.
Proof. vm_compute. reflexivity. Qed.

Example negative_grid_by_evaluation :
  main {| rows := -1; cols := -1; margin := 12; gap := 14; prefix := "portrait";
          empty_threshold := 2; no_dedupe := false; dedupe_hamming := 5;
          preset := preset_none |} example_env
  = Done initial_state.
Proof. reflexivity. Qed.

(** ** Further properties of the splitter *)

(** *** The perceptual hash: size and invariance *)

Lemma below_pow2_of_bits (z n : Z) :
  0 <= n -> 0 <= z -> (forall j, n <= j -> Z.testbit z j = false) -> z < 2 ^ n.
Proof.
  intros Hn Hz Hhigh.
  destruct (Z.eq_dec z 0) as [->|Hne]; [apply Z.pow_pos_nonneg; lia|].
  apply Z.log2_lt_pow2; [lia|].
  destruct (Z.ltb_spec (Z.log2 z) n) as [Hlt|Hge]; [exact Hlt|].
  specialize (Hhigh (Z.log2 z) Hge). rewrite Z.bit_log2 in Hhigh by lia. discriminate.
Qed.

Lemma dhash_pixels_nonneg (pixels : list Z) (N bits : Z) :
  0 <= N -> Z.of_nat (length pixels) = (N + 1) * N ->
  dhash_pixels pixels N = Ok bits -> 0 <= bits < 2 ^ (N * N).
Proof.
  intros HN Hlen Hrun.
  destruct (dhash_pixels_spec pixels N HN Hlen) as [b [Hrun' Hbits]].
  rewrite Hrun in Hrun'. injection Hrun' as <-.
  assert (Hnn : 0 <= bits).
  { apply Z.bits_iff_nonneg_ex. exists (N * N). intros m Hm. rewrite Hbits.
    destruct (Z.leb_spec 0 m); [|reflexivity].
    destruct (Z.ltb_spec m (N * N)); [lia|reflexivity]. }
  split; [exact Hnn|].
  apply below_pow2_of_bits; [nia|exact Hnn|].
  intros j Hj. rewrite Hbits.
  destruct (Z.leb_spec 0 j); [|reflexivity].
  destruct (Z.ltb_spec j (N * N)); [lia|reflexivity].
Qed.



Lemma pixel_map (f : Z -> Z) (pixels : list Z) (N x y : Z) :
  0 <= y * (N + 1) + x < Z.of_nat (length pixels) ->
  pixel (map f pixels) N x y = f (pixel pixels N x y).
Proof.
  intros H. unfold pixel.
  rewrite (nth_indep (map f pixels) 0 (f 0)) by (rewrite length_map; lia).
  apply map_nth.
Qed.

(** X2.  The fingerprint only looks at the order of horizontally adjacent
    pixels of the resized luminance: a strictly increasing change of these
    values, such as a uniform brightness shift, leaves [dhash] unchanged. *)
Theorem dhash_ignores_monotone_changes (t1 t2 : Tile) (N : Z) (f : Z -> Z) :
  0 <= N ->
  Z.of_nat (length (gray_resized t1 (N + 1) N)) = (N + 1) * N ->
  (forall a b, a < b -> f a < f b) ->
  gray_resized t2 (N + 1) N = map f (gray_resized t1 (N + 1) N) ->
  dhash t2 N = dhash t1 N.
Proof.
  intros HN Hlen Hmono Hmap. unfold dhash. rewrite Hmap.
  set (px := gray_resized t1 (N + 1) N) in *.
  assert (Hlen' : Z.of_nat (length (map f px)) = (N + 1) * N)
    by (rewrite length_map; exact Hlen).
  destruct (dhash_pixels_spec px N HN Hlen) as [b1 [Hrun1 Hbits1]].
  destruct (dhash_pixels_spec (map f px) N HN Hlen') as [b2 [Hrun2 Hbits2]].
  rewrite Hrun1, Hrun2. f_equal. apply Z.bits_inj'. intros j Hj.
  rewrite Hbits1, Hbits2.
  destruct (Z.leb_spec 0 j); [|reflexivity].
  destruct (Z.ltb_spec j (N * N)) as [Hlt|]; [|reflexivity].
  cbn [andb].
  assert (HNpos : 0 < N) by nia.
  assert (Hq : 0 <= j / N < N).
  { split; [apply Z.div_pos; lia|apply Z.div_lt_upper_bound; lia]. }
  pose proof (Z.mod_pos_bound j N HNpos) as Hr.
  rewrite !pixel_map by nia.
  set (l := pixel px N (j mod N) (j / N)). set (r := pixel px N (j mod N + 1) (j / N)).
  destruct (Z.gtb_spec l r) as [Hgt|Hle], (Z.gtb_spec (f l) (f r)) as [Hgt'|Hle'];
    try reflexivity.
  - specialize (Hmono r l Hgt). lia.
  - destruct (Z.eq_dec l r) as [->|Hne]; [lia|].
    specialize (Hmono l r ltac:(lia)). lia.
Qed.

Lemma dhash_ignores_monotone_changes_witness :
  dhash brighter_small_tile 2 = dhash small_tile 2.
Proof.
  apply (dhash_ignores_monotone_changes small_tile brighter_small_tile 2 (Z.add 10));
    [lia|reflexivity|intros a b H; lia|reflexivity].
Defined.

(** X3.  A tile whose resized luminance is one flat value has fingerprint
    0, whatever the value: all such tiles are duplicates of one another. *)
Theorem dhash_of_flat_tile_is_zero (tile : Tile) (N v : Z) :
  0 <= N ->
  Z.of_nat (length (gray_resized tile (N + 1) N)) = (N + 1) * N ->
  Forall (eq v) (gray_resized tile (N + 1) N) ->
  dhash tile N = Ok 0.
Proof.
  intros HN Hlen Hflat. unfold dhash.
  destruct (dhash_pixels_spec _ N HN Hlen) as [bits [Hrun Hbits]].
  rewrite Hrun. f_equal. apply Z.bits_inj'. intros j Hj.
  rewrite Hbits, Z.bits_0.
  destruct (Z.leb_spec 0 j); [|reflexivity].
  destruct (Z.ltb_spec j (N * N)) as [Hlt|]; [|reflexivity].
  cbn [andb].
  assert (Hpix : forall x y, 0 <= y * (N + 1) + x < (N + 1) * N ->
            pixel (gray_resized tile (N + 1) N) N x y = v).
  { intros x y Hxy. unfold pixel. rewrite Forall_forall in Hflat.
    symmetry. apply Hflat. apply list_elem_of_In. apply nth_In. lia. }
  assert (HNpos : 0 < N) by nia.
  assert (Hq : 0 <= j / N < N).
  { split; [apply Z.div_pos; lia|apply Z.div_lt_upper_bound; lia]. }
  pose proof (Z.mod_pos_bound j N HNpos) as Hr.
  rewrite !Hpix by nia. rewrite Z.gtb_ltb. apply Z.ltb_irrefl.
Qed.

Lemma dhash_of_flat_tile_is_zero_witness : dhash (flat_tile 200 9 8) 8 = Ok 0.
Proof.
  apply (dhash_of_flat_tile_is_zero (flat_tile 200 9 8) 8 200);
    [lia|reflexivity|repeat constructor].
Defined.

(** *** The Hamming distance as a metric *)

Lemma bit_count_nonneg (z : Z) : 0 <= bit_count z.
Proof.
  assert (H : forall p, 0 < pos_bit_count p) by (induction p; simpl; lia).
  destruct z as [|p|p]; simpl; [lia| |]; specialize (H p); lia.
Qed.

Lemma bit_count_zero (z : Z) : bit_count z = 0 -> z = 0.
Proof.
  assert (H : forall p, 0 < pos_bit_count p) by (induction p; simpl; lia).
  destruct z as [|p|p]; simpl; [reflexivity| |]; specialize (H p); lia.
Qed.

Lemma count_le_length {A} (f : A -> bool) (l : list A) :
  (length (List.filter f l) <= length l)%nat.
Proof.
  induction l as [|x l IH]; simpl; [lia|]. destruct (f x); simpl; lia.
Qed.

Lemma count_xor_le {A} (f g : A -> bool) (l : list A) :
  (length (List.filter (fun i => xorb (f i) (g i)) l)
   <= length (List.filter f l) + length (List.filter g l))%nat.
Proof.
  induction l as [|x l IH]; simpl; [lia|].
  destruct (f x), (g x); simpl; lia.
Qed.

(** A width below which all of [a] lives. *)
Lemma nonneg_below_pow2 (a : Z) : 0 <= a -> a < 2 ^ (Z.log2 a + 1).
Proof.
  intros Ha. destruct (Z.eq_dec a 0) as [->|Hne]; [reflexivity|].
  rewrite Z.add_1_r. apply Z.log2_spec. lia.
Qed.

Lemma bit_count_lxor_le (x y : Z) :
  0 <= x -> 0 <= y -> bit_count (Z.lxor x y) <= bit_count x + bit_count y.
Proof.
  intros Hx Hy.
  set (w := Z.max (Z.log2 x) (Z.log2 y) + 1).
  assert (Hw : 0 <= w) by (pose proof (Z.log2_nonneg x); lia).
  assert (Hxw : 0 <= x < 2 ^ w).
  { split; [exact Hx|]. eapply Z.lt_le_trans; [apply nonneg_below_pow2; exact Hx|].
    apply Z.pow_le_mono_r; lia. }
  assert (Hyw : 0 <= y < 2 ^ w).
  { split; [exact Hy|]. eapply Z.lt_le_trans; [apply nonneg_below_pow2; exact Hy|].
    apply Z.pow_le_mono_r; lia. }
  rewrite (bit_count_set_bits (Z.to_nat w) x), (bit_count_set_bits (Z.to_nat w) y),
    (bit_count_set_bits (Z.to_nat w) (Z.lxor x y)).
  - rewrite (filter_length_ext (Z.testbit (Z.lxor x y))
               (fun i => xorb (Z.testbit x i) (Z.testbit y i))).
    + pose proof (count_xor_le (Z.testbit x) (Z.testbit y) (range (Z.of_nat (Z.to_nat w)))).
      lia.
    + intros i _. apply Z.lxor_spec.
  - apply Z.lxor_nonneg. lia.
  - intros i Hi. rewrite Z2Nat.id in Hi by exact Hw.
    rewrite Z.lxor_spec, (testbit_above w x), (testbit_above w y) by lia. reflexivity.
  - exact Hy.
  - intros i Hi. rewrite Z2Nat.id in Hi by exact Hw. apply (testbit_above w); lia.
  - exact Hx.
  - intros i Hi. rewrite Z2Nat.id in Hi by exact Hw. apply (testbit_above w); lia.
Qed.

(** X4.  On non-negative integers [hamming_distance] is a metric: it is
    never negative, it is 0 exactly for equal arguments, it is symmetric
    and it obeys the triangle inequality. *)
Theorem hamming_distance_is_a_metric (a b c : Z) :
  0 <= a -> 0 <= b -> 0 <= c ->
  0 <= hamming_distance a b /\
  (hamming_distance a b = 0 <-> a = b) /\
  hamming_distance a b = hamming_distance b a /\
  hamming_distance a c <= hamming_distance a b + hamming_distance b c.
Proof.
  intros Ha Hb Hc. split; [apply bit_count_nonneg|]. split; [|split].
  - split.
    + intros H. apply bit_count_zero in H. apply Z.lxor_eq. exact H.
    + intros ->. apply hamming_distance_refl.
  - apply hamming_distance_sym.
  - unfold hamming_distance.
    replace (Z.lxor a c) with (Z.lxor (Z.lxor a b) (Z.lxor b c)).
    + apply bit_count_lxor_le; apply Z.lxor_nonneg; lia.
    + rewrite Z.lxor_assoc, <- (Z.lxor_assoc b b c), Z.lxor_nilpotent, Z.lxor_0_l.
      reflexivity.
Qed.

Lemma hamming_distance_is_a_metric_witness :
  0 <= hamming_distance 5 3 /\
  (hamming_distance 5 3 = 0 <-> 5 = 3) /\
  hamming_distance 5 3 = hamming_distance 3 5 /\
  hamming_distance 5 6 <= hamming_distance 5 3 + hamming_distance 3 6.
Proof. apply (hamming_distance_is_a_metric 5 3 6); lia. Defined.

Lemma hamming_distance_le_width (a b w : Z) :
  0 <= a < 2 ^ w -> 0 <= b < 2 ^ w -> 0 <= hamming_distance a b <= w.
Proof.
  intros Ha Hb.
  assert (Hw : 0 <= w).
  { destruct (Z.leb_spec 0 w); [assumption|]. rewrite Z.pow_neg_r in Ha by lia. lia. }
  rewrite (hamming_distance_differing_bits a b w Ha Hb).
  unfold differing_bits. split; [lia|].
  pose proof (count_le_length (fun i => xorb (Z.testbit a i) (Z.testbit b i)) (range w)) as H.
  pose proof (length_range w). lia.
Qed.

(** X5.  Two fingerprints of [w] bits are at distance at most [w], and
    the distance is the number of bit positions below [w] in which they
    differ. *)
Theorem hamming_distance_at_most_width (a b w : Z) :
  0 <= a < 2 ^ w -> 0 <= b < 2 ^ w ->
  0 <= hamming_distance a b <= w /\
  hamming_distance a b = differing_bits a b w.
Proof.
  intros Ha Hb. split.
  - apply hamming_distance_le_width; assumption.
  - apply hamming_distance_differing_bits; assumption.
Qed.

Lemma hamming_distance_at_most_width_witness :
  0 <= hamming_distance 5 3 <= 3 /\ hamming_distance 5 3 = differing_bits 5 3 3.
Proof.
  apply (hamming_distance_at_most_width 5 3 3); change (2 ^ 3) with 8; lia.
Defined.

(** *** The tile classifier at its limits *)

Lemma luminance_stddev_nonneg (band : list Z) : (0 <= luminance_stddev band)%R.
Proof. unfold luminance_stddev. apply sqrt_pos. Qed.



(** *** The geometry of the grid *)

(** X7.  Once the sheet is open, a zero row or column count ends the run
    with [ZeroDivisionError] before the output directory is created and
    before anything is cropped or written. *)
Theorem zero_rows_or_cols_raise (args : Args) (env : Env) (img : Sheet) :
  open_image env = Ok img ->
  rows args = 0 \/ cols args = 0 ->
  main args env = Raised ZeroDivisionError initial_state.
Proof.
  intros Hopen Hzero. unfold main. rewrite Hopen. unfold cell_extent, floordiv.
  destruct (Z.eqb_spec (cols args) 0) as [Hc|Hc]; [reflexivity|].
  destruct (Z.eqb_spec (rows args) 0) as [Hr|Hr]; [reflexivity|]. lia.
Qed.

Lemma zero_rows_or_cols_raise_witness :
  main zero_rows_args (flat_env 200 1000 600) = Raised ZeroDivisionError initial_state.
Proof.
  apply (zero_rows_or_cols_raise zero_rows_args (flat_env 200 1000 600)
           (flat_sheet 200 1000 600)); [reflexivity|left; reflexivity].
Defined.

(** X8.  With at least one row and column, non-negative margin and gap
    and a non-negative computed cell size, every cell box lies inside the
    sheet, at least [margin] away from its edges, and two cells of
    different columns (rows) are at least [gap] apart horizontally
    (vertically). *)
Theorem cell_boxes_inside_and_apart (args : Args) (img : Sheet) (cell_w cell_h : Z) :
  1 <= rows args -> 1 <= cols args -> 0 <= margin args -> 0 <= gap args ->
  cell_extent (width img) (cols args) (margin args) (gap args) = Ok cell_w ->
  cell_extent (height img) (rows args) (margin args) (gap args) = Ok cell_h ->
  0 <= cell_w -> 0 <= cell_h ->
  (forall r c, 0 <= r < rows args -> 0 <= c < cols args ->
     let '(x0, y0, x1, y1) := cell_box args cell_w cell_h r c in
     margin args <= x0 /\ x1 = x0 + cell_w /\ x1 <= width img - margin args /\
     margin args <= y0 /\ y1 = y0 + cell_h /\ y1 <= height img - margin args) /\
  (forall r c r' c', 0 <= c < c' ->
     let '(_, _, x1, _) := cell_box args cell_w cell_h r c in
     let '(x0', _, _, _) := cell_box args cell_w cell_h r' c' in
     x1 + gap args <= x0') /\
  (forall r c r' c', 0 <= r < r' ->
     let '(_, _, _, y1) := cell_box args cell_w cell_h r c in
     let '(_, y0', _, _) := cell_box args cell_w cell_h r' c' in
     y1 + gap args <= y0').
Proof.
  intros Hr Hc Hm Hg Hw Hh Hcw Hch.
  unfold cell_extent, floordiv in Hw, Hh.
  destruct (Z.eqb_spec (cols args) 0); [lia|]. destruct (Z.eqb_spec (rows args) 0); [lia|].
  injection Hw as Hw. injection Hh as Hh.
  assert (Hfw : cols args * cell_w <= width img - 2 * margin args - (cols args - 1) * gap args)
    by (rewrite <- Hw; apply Z.mul_div_le; lia).
  assert (Hfh : rows args * cell_h <= height img - 2 * margin args - (rows args - 1) * gap args)
    by (rewrite <- Hh; apply Z.mul_div_le; lia).
  unfold cell_box. split; [|split].
  - intros r c Hr' Hc'. cbv zeta.
    assert (c * (cell_w + gap args) <= (cols args - 1) * (cell_w + gap args))
      by (apply Z.mul_le_mono_nonneg_r; lia).
    assert (r * (cell_h + gap args) <= (rows args - 1) * (cell_h + gap args))
      by (apply Z.mul_le_mono_nonneg_r; lia).
    assert (0 <= c * (cell_w + gap args)) by (apply Z.mul_nonneg_nonneg; lia).
    assert (0 <= r * (cell_h + gap args)) by (apply Z.mul_nonneg_nonneg; lia).
    repeat split; lia.
  - intros r c r' c' Hcc. cbv zeta.
    assert ((c + 1) * (cell_w + gap args) <= c' * (cell_w + gap args))
      by (apply Z.mul_le_mono_nonneg_r; lia).
    lia.
  - intros r c r' c' Hrr. cbv zeta.
    assert ((r + 1) * (cell_h + gap args) <= r' * (cell_h + gap args))
      by (apply Z.mul_le_mono_nonneg_r; lia).
    lia.
Qed.

Lemma cell_boxes_inside_and_apart_witness :
  let '(x0, y0, x1, y1) := cell_box default_args 127 133 3 6 in
  margin default_args <= x0 /\ x1 = x0 + 127 /\
  x1 <= width (flat_sheet 200 1000 600) - margin default_args /\
  margin default_args <= y0 /\ y1 = y0 + 133 /\
  y1 <= height (flat_sheet 200 1000 600) - margin default_args.
Proof.
  apply (proj1 (cell_boxes_inside_and_apart default_args (flat_sheet 200 1000 600) 127 133
                  ltac:(simpl; lia) ltac:(simpl; lia) ltac:(simpl; lia) ltac:(simpl; lia)
                  eq_refl eq_refl ltac:(lia) ltac:(lia)) 3 6);
    simpl; lia.
Defined.

(** *** Invariants of a run *)

Lemma main_inv (I F : State -> Prop) (args : Args) (env : Env) :
  I initial_state -> F initial_state ->
  (forall img cell_w cell_h r c s, I s ->
     match cell_body args env img cell_w cell_h r c s with
     | Done s' => I s'
     | Raised _ s' => F s'
     end) ->
  match main args env with
  | Done s => I s
  | Raised _ s => F s
  end.
Proof.
  intros HI HF Hstep. unfold main.
  destruct (open_image env) as [img|e]; [|exact HF].
  destruct (cell_extent _ _ _ _) as [cw|e]; [|exact HF].
  destruct (cell_extent _ _ _ _) as [ch|e]; [|exact HF].
  destruct (mkdir env) as [u|e]; [|exact HF].
  unfold main_loop. apply for_state_inv; [|exact HI]. intros r s Hs.
  apply for_state_inv; [|exact Hs]. intros c s' Hs'. apply Hstep. exact Hs'.
Qed.

(** The same, for an invariant that speaks of the opened sheet. *)
Lemma main_inv_sheet (I F : State -> Prop) (args : Args) (env : Env) :
  I initial_state -> F initial_state ->
  (forall img cell_w cell_h r c s, open_image env = Ok img -> I s ->
     match cell_body args env img cell_w cell_h r c s with
     | Done s' => I s'
     | Raised _ s' => F s'
     end) ->
  match main args env with
  | Done s => I s
  | Raised _ s => F s
  end.
Proof.
  intros HI HF Hstep. unfold main.
  destruct (open_image env) as [img|e] eqn:Hopen; [|exact HF].
  destruct (cell_extent _ _ _ _) as [cw|e]; [|exact HF].
  destruct (cell_extent _ _ _ _) as [ch|e]; [|exact HF].
  destruct (mkdir env) as [u|e]; [|exact HF].
  unfold main_loop. apply for_state_inv; [|exact HI]. intros r s Hs.
  apply for_state_inv; [|exact Hs]. intros c s' Hs'. apply Hstep; [reflexivity|exact Hs'].
Qed.

Lemma any_within_false (h threshold : Z) (kept : list Z) :
  any_within h threshold kept = false ->
  forall k, In k kept -> threshold < hamming_distance h k.
Proof.
  intros Hnone k Hk.
  destruct (Z.ltb_spec threshold (hamming_distance h k)) as [Hlt|Hle]; [exact Hlt|].
  assert (any_within h threshold kept = true); [|congruence].
  apply any_within_iff. exists k. split; assumption.
Qed.

Lemma pairwise_apart_snoc (threshold h : Z) (kept : list Z) :
  pairwise_apart threshold kept ->
  any_within h threshold kept = false ->
  pairwise_apart threshold (kept ++ [h]).
Proof.
  intros Hpair Hnone i j hi hj Hi Hj Hij.
  pose proof (any_within_false _ _ _ Hnone) as Hfar.
  apply lookup_app_Some in Hi. apply lookup_app_Some in Hj.
  destruct Hi as [Hi|[Hil Hi]], Hj as [Hj|[Hjl Hj]].
  - apply (Hpair i j); assumption.
  - apply list_lookup_singleton_Some in Hj. destruct Hj as [_ <-].
    rewrite hamming_distance_sym. apply Hfar.
    apply list_elem_of_In. apply list_elem_of_lookup. exists i. exact Hi.
  - apply list_lookup_singleton_Some in Hi. destruct Hi as [_ <-].
    apply Hfar. apply list_elem_of_In. apply list_elem_of_lookup. exists j. exact Hj.
  - apply list_lookup_singleton_Some in Hi. apply list_lookup_singleton_Some in Hj. lia.
Qed.

(** X9.  With deduplication enabled, the kept fingerprints are pairwise
    farther apart than the threshold, when the run ends normally and when
    an exception cuts it short. *)
Theorem kept_fingerprints_stay_apart (args : Args) (env : Env) :
  no_dedupe args = false ->
  pairwise_apart (dedupe_hamming args) (kept_hashes (final_state (main args env))).
Proof.
  intros Hon.
  pose proof (main_inv (fun s => pairwise_apart (dedupe_hamming args) (kept_hashes s))
                (fun s => pairwise_apart (dedupe_hamming args) (kept_hashes s)) args env)
    as Hinv.
  cbv beta in Hinv.
  assert (Hinit : pairwise_apart (dedupe_hamming args) (kept_hashes initial_state)).
  { intros i j hi hj Hi. simpl in Hi. rewrite lookup_nil in Hi. discriminate. }
  specialize (Hinv Hinit Hinit).
  destruct (main args env); simpl; apply Hinv.
  all: intros img cw ch r c s Hs;
    destruct (cell_body_step args env img cw ch r c s); simpl; try exact Hs;
    apply pairwise_apart_snoc; [exact Hs|];
    match goal with H : is_duplicate _ _ _ = false |- _ =>
      unfold is_duplicate in H; rewrite Hon in H; exact H end.
Qed.

Lemma kept_fingerprints_stay_apart_witness :
  pairwise_apart (dedupe_hamming default_args)
    (kept_hashes (final_state (main default_args example_env))).
Proof. apply (kept_fingerprints_stay_apart default_args example_env). reflexivity. Defined.

Lemma main_books_balanced (args : Args) (env : Env) (st : State) :
  main args env = Done st -> books_balanced st.
Proof.
  intros Hrun.
  pose proof (main_inv books_balanced (fun _ => True) args env) as Hinv.
  rewrite Hrun in Hinv. apply Hinv; [repeat split|exact I|].
  intros img cw ch r c s (Hk & Hu & Hs).
  destruct (cell_body_step args env img cw ch r c s); try exact I;
    try (repeat split; simpl; assumption).
  unfold books_balanced. simpl. rewrite !length_app. simpl.
  rewrite size_union by set_solver. rewrite size_singleton.
  repeat split; lia.
Qed.

(** X10.  When a run ends normally, the number of written tiles is the
    number of kept fingerprints, of distinct used names and of calls to
    [save], and the used names are exactly the names passed to [save]. *)
Theorem written_counts_what_was_kept (args : Args) (env : Env) (st : State) :
  main args env = Done st ->
  books_balanced st /\ used_names st = list_to_set (save_calls st).
Proof.
  intros Hrun. split; [exact (main_books_balanced args env st Hrun)|].
  pose proof (main_inv (fun s => used_names s = list_to_set (save_calls s))
                (fun _ => True) args env) as Hinv.
  rewrite Hrun in Hinv. apply Hinv; [reflexivity|exact I|].
  intros img cw ch r c s Hs.
  destruct (cell_body_step args env img cw ch r c s); try exact I;
    try (simpl; exact Hs).
  simpl. rewrite Hs, list_to_set_app_L. cbn [list_to_set].
  rewrite (right_id_L ∅ (∪)). reflexivity.
Qed.

Lemma written_counts_what_was_kept_witness :
  books_balanced (final_state (main default_args (flat_env 200 171 98))) /\
  used_names (final_state (main default_args (flat_env 200 171 98)))
  = list_to_set (save_calls (final_state (main default_args (flat_env 200 171 98)))).
Proof.
  apply (written_counts_what_was_kept default_args (flat_env 200 171 98)).
  vm_compute. reflexivity.
Defined.

Lemma any_within_negative (h threshold : Z) (kept : list Z) :
  threshold < 0 -> any_within h threshold kept = false.
Proof.
  intros Hneg. unfold any_within. induction kept as [|k kept IH]; [reflexivity|].
  cbn [existsb]. rewrite IH, orb_false_r. apply Z.leb_gt.
  pose proof (bit_count_nonneg (Z.lxor h k)). unfold hamming_distance. lia.
Qed.

(** X11.  With [--no-dedupe], and also with a negative [--dedupe-hamming]
    threshold, no cell is ever skipped as a duplicate. *)
Theorem no_dedupe_skips_no_duplicate (args : Args) (env : Env) :
  no_dedupe args = true \/ dedupe_hamming args < 0 ->
  skipped_duplicate (final_state (main args env)) = 0.
Proof.
  intros Hoff.
  pose proof (main_inv (fun s => skipped_duplicate s = 0) (fun s => skipped_duplicate s = 0)
                args env eq_refl eq_refl) as Hinv.
  destruct (main args env); simpl; apply Hinv.
  all: intros img cw ch r c s Hs;
    destruct (cell_body_step args env img cw ch r c s); simpl; try exact Hs;
    match goal with H : is_duplicate _ _ _ = true |- _ =>
      unfold is_duplicate in H; destruct Hoff as [Hoff|Hoff];
      [rewrite Hoff in H; discriminate
      |rewrite (any_within_negative _ _ _ Hoff), andb_false_r in H; discriminate] end.
Qed.

Lemma no_dedupe_skips_no_duplicate_witness :
  skipped_duplicate (final_state (main no_dedupe_args example_env)) = 0.
Proof.
  apply (no_dedupe_skips_no_duplicate no_dedupe_args example_env). left. reflexivity.
Defined.

(** X12.  With deduplication enabled and a threshold of 64 or more, the
    width of the fingerprint, every tile after the first written one is a
    duplicate: at most one tile is written. *)
Theorem threshold_of_64_keeps_one_tile (args : Args) (env : Env) :
  no_dedupe args = false ->
  64 <= dedupe_hamming args ->
  (forall img box tile, open_image env = Ok img -> crop img box = Ok tile ->
     Z.of_nat (length (gray_resized tile 9 8)) = 72) ->
  written (final_state (main args env)) <= 1.
Proof.
  intros Hon Hwide Hpix.
  set (I := fun s : State =>
              0 <= written s <= 1 /\ Z.of_nat (length (kept_hashes s)) = written s /\
              Forall (fun h => 0 <= h < 2 ^ 64) (kept_hashes s)).
  assert (Hinit : I initial_state).
  { split; [simpl; lia|]. split; [reflexivity|constructor]. }
  assert (Hstep : forall img cell_w cell_h r c s, open_image env = Ok img -> I s ->
            match cell_body args env img cell_w cell_h r c s with
            | Done s' => I s'
            | Raised _ s' => I s'
            end).
  { intros img cw ch r c s Hopen (Hw & Hlen & Hall).
    destruct (cell_body_step args env img cw ch r c s); unfold I; simpl;
      try (split; [exact Hw|split; [exact Hlen|exact Hall]]).
    match goal with
    | Hc : crop img _ = Ok ?t, Hh : dhash ?t 8 = Ok ?h,
      Hd : is_duplicate _ _ _ = false |- _ =>
        pose proof (Hpix img _ t Hopen Hc) as Hlen72;
        assert (Hh64 : 0 <= h < 2 ^ 64)
          by (apply (dhash_pixels_nonneg (gray_resized t (8 + 1) 8) 8 h);
              [lia|exact Hlen72|exact Hh]);
        unfold is_duplicate in Hd; rewrite Hon in Hd; cbn [negb andb] in Hd;
        rename Hd into Hdup
    end.
    destruct (kept_hashes s) as [|k kept] eqn:Ek.
    - simpl in Hlen. rewrite <- Hlen. simpl.
      split; [lia|]. split; [reflexivity|]. constructor; [assumption|constructor].
    - (* a kept fingerprint is within 64 bits of any other *)
      exfalso. inversion Hall as [|? ? Hk _]; subst.
      unfold any_within in Hdup. cbn [existsb] in Hdup.
      apply orb_false_iff in Hdup. destruct Hdup as [Hdup _].
      apply Z.leb_gt in Hdup.
      pose proof (hamming_distance_le_width h k 64 ltac:(assumption) ltac:(assumption)).
      lia. }
  pose proof (main_inv_sheet I I args env Hinit Hinit Hstep) as Hinv.
  assert (Hfinal : I (final_state (main args env)))
    by (destruct (main args env); exact Hinv).
  destruct Hfinal as [Hw _]. lia.
Qed.

Lemma threshold_of_64_keeps_one_tile_witness :
  written (final_state (main wide_threshold_args (flat_env 200 171 98))) <= 1.
Proof.
  apply (threshold_of_64_keeps_one_tile wide_threshold_args (flat_env 200 171 98)).
  - reflexivity.
  - simpl. lia.
  - intros img [[[x0 y0] x1] y1] tile Hopen Hcrop.
    injection Hopen as <-. simpl in Hcrop.
    destruct ((x1 <? x0) || (y1 <? y0)); [discriminate|].
    injection Hcrop as <-. reflexivity.
Defined.

(** *** The order of the crops *)

Lemma for_state_appended {A} (g : State -> list A) (f : Z -> list A)
    (body : Z -> State -> Outcome) (l : list Z) (st : State) :
  (forall i s, appended g s (f i) (body i s)) ->
  appended g st (flat_map f l) (for_state l body st).
Proof.
  intros Hbody. revert st. induction l as [|i l IH]; intros st; cbn [for_state flat_map].
  - simpl. rewrite app_nil_r. reflexivity.
  - pose proof (Hbody i st) as Hi. destruct (body i st) as [s1|e s1]; cbn [appended] in Hi.
    + pose proof (IH s1) as Hl.
      destruct (for_state l body s1) as [s2|e s2]; cbn [appended] in *.
      * rewrite Hl, Hi, app_assoc. reflexivity.
      * destruct Hl as [k [Hk Hpre]]. exists (f i ++ k). split.
        -- rewrite Hk, Hi, app_assoc. reflexivity.
        -- apply prefix_app. exact Hpre.
    + destruct Hi as [k [Hk Hpre]]. exists k. split; [exact Hk|].
      apply prefix_app_r. exact Hpre.
Qed.

Lemma cell_body_appended (args : Args) (env : Env) (img : Sheet)
    (cell_w cell_h r c : Z) (st : State) :
  appended crop_calls st
    match preset_lookup (preset args) (r + 1) (c + 1) with
    | Some _ => [cell_box args cell_w cell_h r c]
    | None => []
    end
    (cell_body args env img cell_w cell_h r c st).
Proof.
  destruct (cell_body_step args env img cell_w cell_h r c st); cbn [appended];
    match goal with H : preset_lookup _ _ _ = _ |- _ => rewrite H end;
    simpl; rewrite ?app_nil_r; try reflexivity;
    eexists; (split; [reflexivity|reflexivity]).
Qed.

(** X13.  The cells are cropped in row-major order, once each and only
    those the preset admits, each with the box computed from the margin,
    the gap and the cell size: the crops of any run are an initial part of
    that list, and all of it when the run ends normally. *)
Theorem crops_follow_row_major_order (args : Args) (env : Env) (img : Sheet)
    (cell_w cell_h : Z) :
  open_image env = Ok img ->
  cell_extent (width img) (cols args) (margin args) (gap args) = Ok cell_w ->
  cell_extent (height img) (rows args) (margin args) (gap args) = Ok cell_h ->
  crop_calls (final_state (main args env)) `prefix_of` cropped_boxes args cell_w cell_h /\
  (forall st, main args env = Done st ->
     crop_calls st = cropped_boxes args cell_w cell_h).
Proof.
  intros Hopen Hw Hh.
  assert (Hloop : forall st, appended crop_calls st (cropped_boxes args cell_w cell_h)
                    (main_loop args env img cell_w cell_h st)).
  { intros st. unfold main_loop, cropped_boxes.
    apply (for_state_appended crop_calls
             (fun r => flat_map (fun c =>
                match preset_lookup (preset args) (r + 1) (c + 1) with
                | Some _ => [cell_box args cell_w cell_h r c]
                | None => []
                end) (range (cols args)))).
    intros r s.
    apply (for_state_appended crop_calls
             (fun c => match preset_lookup (preset args) (r + 1) (c + 1) with
                       | Some _ => [cell_box args cell_w cell_h r c]
                       | None => []
                       end)).
    intros c s'. apply cell_body_appended. }
  unfold main. rewrite Hopen, Hw, Hh.
  destruct (mkdir env) as [u|e].
  - specialize (Hloop initial_state).
    destruct (main_loop args env img cell_w cell_h initial_state) as [s|e s];
      cbn [appended final_state] in *.
    + split; [rewrite Hloop; reflexivity|]. intros st H. injection H as <-. exact Hloop.
    + destruct Hloop as [k [Hk Hpre]]. split; [rewrite Hk; exact Hpre|discriminate].
  - split; [apply prefix_nil|discriminate].
Qed.

Lemma crops_follow_row_major_order_witness :
  crop_calls (final_state (main default_args (read_only_env 200 171 98)))
    `prefix_of` cropped_boxes default_args 9 8 /\
  (forall st, main default_args (read_only_env 200 171 98) = Done st ->
     crop_calls st = cropped_boxes default_args 9 8).
Proof.
  apply (crops_follow_row_major_order default_args (read_only_env 200 171 98)
           (flat_sheet 200 171 98) 9 8); reflexivity.
Defined.

(** *** Names never collide *)

Lemma pretty_Z_length_3 (idx : Z) :
  100 <= idx -> (3 <= String.length (pretty idx))%nat.
Proof.
  intros H. destruct idx as [|p|p]; try lia.
  unfold pretty, pretty_Z, pretty, pretty_positive, pretty, pretty_N.
  destruct (decide (N.pos p = 0%N)) as [Hp|_]; [discriminate|].
  rewrite pretty_N_go_step by lia.
  assert (H10 : (10 <= N.pos p `div` 10)%N).
  { apply N.div_le_lower_bound; lia. }
  rewrite pretty_N_go_step by lia.
  etransitivity; [|apply pretty_N_go_length_pos].
  - simpl. lia.
  - apply N.div_str_pos. lia.
Qed.

Lemma two_digits_inj (p q : Z) :
  0 <= p < 100 -> 0 <= q < 100 -> two_digits p = two_digits q -> p = q.
Proof.
  intros Hp Hq Heq.
  assert (Hall : forallb (fun i => forallb (fun j =>
             implb (String.eqb (two_digits i) (two_digits j)) (i =? j)) (range 100))
             (range 100) = true)
    by (vm_compute; reflexivity).
  rewrite forallb_forall in Hall.
  specialize (Hall p (proj2 (in_range 100 p) Hp)).
  rewrite forallb_forall in Hall.
  specialize (Hall q (proj2 (in_range 100 q) Hq)).
  apply String.eqb_eq in Heq. rewrite Heq in Hall. simpl in Hall.
  apply Z.eqb_eq. exact Hall.
Qed.

Lemma two_digits_length (p : Z) : String.length (two_digits p) = 2%nat.
Proof. reflexivity. Qed.

Lemma format_02d_inj (p q : Z) :
  0 <= p -> 0 <= q -> format_02d p = format_02d q -> p = q.
Proof.
  intros Hp Hq Heq.
  destruct (Z.ltb_spec p 100) as [Hp1|Hp1], (Z.ltb_spec q 100) as [Hq1|Hq1].
  - rewrite !format_02d_two_digits in Heq by lia. apply two_digits_inj; assumption || lia.
  - rewrite format_02d_two_digits in Heq by lia. rewrite format_02d_wide in Heq by lia.
    pose proof (pretty_Z_length_3 q Hq1) as Hlen. rewrite <- Heq in Hlen.
    rewrite two_digits_length in Hlen. lia.
  - rewrite (format_02d_two_digits q) in Heq by lia. rewrite format_02d_wide in Heq by lia.
    pose proof (pretty_Z_length_3 p Hp1) as Hlen. rewrite Heq in Hlen.
    rewrite two_digits_length in Hlen. lia.
  - rewrite !format_02d_wide in Heq by lia. apply (inj pretty). exact Heq.
Qed.

(** The officers table names every admitted cell, with a name that is not
    empty and that no other cell has. *)
Lemma officers_lookup (row col : Z) (mapped : option string) :
  preset_lookup preset_officers_4x6 row col = Some mapped ->
  exists name,
    mapped = Some name /\ name <> "" /\
    OFFICER_PRESET_4X6 !! (row, col) = Some (Some name) /\
    1 <= row <= 4 /\ 1 <= col <= 6.
Proof.
  cbn [preset_lookup]. intros H.
  destruct (OFFICER_PRESET_4X6 !! (row, col)) as [[name|]|] eqn:E; try discriminate.
  injection H as <-. exists name. split; [reflexivity|].
  pose proof E as E'. officer_entry E'; subst; repeat split; (discriminate || lia).
Qed.

Lemma officers_names_inj (k k' : Z * Z) (name : string) :
  OFFICER_PRESET_4X6 !! k = Some (Some name) ->
  OFFICER_PRESET_4X6 !! k' = Some (Some name) ->
  k = k'.
Proof.
  intros H H'. destruct k as [row col], k' as [row' col'].
  officer_entry H; subst; try discriminate;
    unfold OFFICER_PRESET_4X6 in H'; apply elem_of_list_to_map_2 in H';
    repeat (apply elem_of_cons in H'; destruct H' as [H'|H'];
            [inversion H'; reflexivity|]);
    apply elem_of_nil in H'; destruct H'.
Qed.

Lemma resolve_filename_named (args : Args) (name : string) (r c : Z) :
  name <> "" -> resolve_filename args (Some name) r c = name.
Proof. intros H. destruct name; [congruence|reflexivity]. Qed.

(** Two cells of a grid of [C] columns with the same name are the same
    cell; cells are numbered in row-major order. *)
Lemma cell_name_inj (args : Args) (C q q' : Z) (n : string) :
  0 < C -> cols args = C -> 0 <= q -> 0 <= q' ->
  cell_name args (q / C) (q mod C) = Some n ->
  cell_name args (q' / C) (q' mod C) = Some n ->
  q = q'.
Proof.
  intros HC Hcols Hq Hq' H H'.
  pose proof (Z.div_mod q C ltac:(lia)) as Hdm.
  pose proof (Z.div_mod q' C ltac:(lia)) as Hdm'.
  unfold cell_name in H, H'.
  destruct (preset_lookup (preset args) (q / C + 1) (q mod C + 1)) as [m|] eqn:E;
    [|discriminate].
  destruct (preset_lookup (preset args) (q' / C + 1) (q' mod C + 1)) as [m'|] eqn:E';
    [|discriminate].
  injection H as H. injection H' as H'.
  destruct (preset args).
  - cbn [preset_lookup] in E, E'. injection E as <-. injection E' as <-.
    unfold resolve_filename in H, H'. rewrite <- H' in H. rewrite Hcols in H.
    apply (inj (String.append _)) in H. apply (inj (String.append _)) in H.
    apply format_02d_inj in H; nia.
  - destruct (officers_lookup _ _ _ E) as [name [-> [Hne [Hl _]]]].
    destruct (officers_lookup _ _ _ E') as [name' [-> [Hne' [Hl' _]]]].
    rewrite resolve_filename_named in H, H' by assumption. subst name name'.
    pose proof (officers_names_inj _ _ _ Hl Hl') as Hk. injection Hk as Hk1 Hk2. nia.
Qed.

Lemma for_state_snoc (l : list Z) (i : Z) (body : Z -> State -> Outcome) (st st' : State) :
  for_state (l ++ [i]) body st = Done st' ->
  exists s, for_state l body st = Done s /\ body i s = Done st'.
Proof.
  rewrite for_state_app. destruct (for_state l body st) as [s|e s]; [|discriminate].
  cbn [for_state]. intros H. exists s. split; [reflexivity|].
  destruct (body i s); [exact H|discriminate].
Qed.

Lemma names_fresh_step (args : Args) (env : Env) (img : Sheet) (cell_w cell_h C k : Z)
    (st st' : State) :
  0 < C -> cols args = C -> 0 <= k ->
  names_fresh_inv args C k st ->
  cell_body args env img cell_w cell_h (k / C) (k mod C) st = Done st' ->
  names_fresh_inv args C (k + 1) st'.
Proof.
  intros HC Hcols Hk (Hcount & Hnone & Hnames) Hrun.
  assert (Hold : forall n, n ∈ used_names st ->
            exists q, 0 <= q < k + 1 /\ cell_name args (q / C) (q mod C) = Some n).
  { intros n Hn. destruct (Hnames n Hn) as [q [Hq Hc]]. exists q. split; [lia|exact Hc]. }
  revert Hrun.
  destruct (cell_body_step args env img cell_w cell_h (k / C) (k mod C) st);
    intros Hrun; try discriminate Hrun; injection Hrun as <-;
    unfold names_fresh_inv; simpl; rewrite ?length_app; simpl.
  - split; [lia|]. split; [|exact Hold].
    intros Hp. rewrite Hp in *. discriminate.
  - split; [lia|]. split; [exact Hnone|exact Hold].
  - split; [lia|]. split; [exact Hnone|exact Hold].
  - (* a name already in use would be the name of an earlier cell *)
    exfalso.
    match goal with H : _ ∈ used_names st |- _ => destruct (Hnames _ H) as [q [Hq Hc]] end.
    assert (q = k); [|lia].
    eapply (cell_name_inj args C q k); try eassumption; try lia.
    unfold cell_name.
    match goal with H : preset_lookup _ _ _ = Some _ |- _ => rewrite H end. reflexivity.
  - split; [lia|]. split; [exact Hnone|].
    intros n Hn. apply elem_of_union in Hn. destruct Hn as [Hn|Hn]; [apply Hold; exact Hn|].
    apply elem_of_singleton in Hn. subst n. exists k. split; [lia|].
    unfold cell_name.
    match goal with H : preset_lookup _ _ _ = Some _ |- _ => rewrite H end. reflexivity.
Qed.

Lemma names_fresh_loop (args : Args) (env : Env) (img : Sheet) (cell_w cell_h C : Z)
    (n : nat) (st : State) :
  0 < C -> cols args = C ->
  for_state (range (Z.of_nat n))
    (fun i => cell_body args env img cell_w cell_h (i / C) (i mod C)) initial_state
  = Done st ->
  names_fresh_inv args C (Z.of_nat n) st.
Proof.
  intros HC Hcols. revert st. induction n as [|n IH]; intros st Hrun.
  - injection Hrun as <-. split; [reflexivity|]. split; [reflexivity|].
    intros x Hx. apply not_elem_of_empty in Hx. destruct Hx.
  - rewrite range_S in Hrun. apply for_state_snoc in Hrun.
    destruct Hrun as [s [Hrun Hstep]].
    replace (Z.of_nat (S n)) with (Z.of_nat n + 1) by lia.
    apply (names_fresh_step args env img cell_w cell_h C (Z.of_nat n) s st);
      try assumption; [lia|]. apply IH. exact Hrun.
Qed.

Lemma range_to_nat (n : Z) : range n = range (Z.of_nat (Z.to_nat n)).
Proof. unfold range. rewrite Nat2Z.id. reflexivity. Qed.

Lemma for_state_nothing (l : list Z) (st : State) :
  for_state l (fun _ s => Done s) st = Done st.
Proof. induction l as [|i l IH]; [reflexivity|exact IH]. Qed.

(** X14.  In a run that ends normally the collision test of lines 127-129
    never fires: every cell counted as preset-filtered was skipped before
    it was cropped, and without a preset that counter stays 0, so written,
    empty and duplicate cells account for the whole grid. *)
Theorem names_never_collide (args : Args) (env : Env) (st : State) :
  main args env = Done st ->
  skipped_by_preset st + Z.of_nat (length (crop_calls st))
  = Z.max 0 (rows args) * Z.max 0 (cols args) /\
  (preset args = preset_none ->
   skipped_by_preset st = 0 /\
   written st + skipped_empty st + skipped_duplicate st
   = Z.max 0 (rows args) * Z.max 0 (cols args)).
Proof.
  intros Hmain. pose proof (main_counts args env st Hmain) as Htotal.
  unfold total_counted in Htotal.
  revert Hmain. unfold main.
  destruct (open_image env) as [img|e]; [|discriminate].
  destruct (cell_extent (width img) _ _ _) as [cw|e]; [|discriminate].
  destruct (cell_extent (height img) _ _ _) as [ch|e]; [|discriminate].
  destruct (mkdir env) as [u|e]; [|discriminate].
  unfold main_loop. intros Hrun.
  destruct (Z.ltb_spec 0 (cols args)) as [HC|HC].
  - rewrite (range_to_nat (rows args)) in Hrun.
    rewrite (grid_flat (Z.to_nat (rows args)) (cols args)) in Hrun by exact HC.
    assert (Hcells : 0 <= Z.of_nat (Z.to_nat (rows args)) * cols args)
      by (apply Z.mul_nonneg_nonneg; lia).
    rewrite <- (Z2Nat.id _ Hcells) in Hrun.
    apply (names_fresh_loop args env img cw ch (cols args)) in Hrun; [|exact HC|reflexivity].
    destruct Hrun as (Hcount & Hnone & _). split.
    + rewrite Hcount, Z2Nat.id by exact Hcells. f_equal; lia.
    + intros Hp. specialize (Hnone Hp). split; [exact Hnone|lia].
  - rewrite (range_nonpos (cols args)) in Hrun by lia. cbn [for_state] in Hrun.
    rewrite for_state_nothing in Hrun. injection Hrun as <-. simpl.
    split; [lia|]. intros _. split; [reflexivity|lia].
Qed.

Lemma names_never_collide_witness :
  skipped_by_preset (final_state (main default_args (flat_env 200 171 98)))
  + Z.of_nat (length (crop_calls (final_state (main default_args (flat_env 200 171 98)))))
  = Z.max 0 (rows default_args) * Z.max 0 (cols default_args) /\
  (preset default_args = preset_none ->
   skipped_by_preset (final_state (main default_args (flat_env 200 171 98))) = 0 /\
   written (final_state (main default_args (flat_env 200 171 98)))
   + skipped_empty (final_state (main default_args (flat_env 200 171 98)))
   + skipped_duplicate (final_state (main default_args (flat_env 200 171 98)))
   = Z.max 0 (rows default_args) * Z.max 0 (cols default_args)).
Proof.
  apply (names_never_collide default_args (flat_env 200 171 98)).
  vm_compute. reflexivity.
Defined.

(** *** The officers preset *)

Lemma officers_lookup_None (row col : Z) :
  preset_lookup preset_officers_4x6 row col = None <->
  ~ (1 <= row <= 4 /\ 1 <= col <= 6) \/ (row, col) = (2, 6) \/ (row, col) = (3, 6).
Proof.
  split.
  - intros H.
    destruct (Z.leb_spec 1 row), (Z.leb_spec row 4), (Z.leb_spec 1 col), (Z.leb_spec col 6);
      try (left; lia).
    assert (Hr : row = 1 \/ row = 2 \/ row = 3 \/ row = 4) by lia.
    assert (Hc : col = 1 \/ col = 2 \/ col = 3 \/ col = 4 \/ col = 5 \/ col = 6) by lia.
    destruct Hr as [->|[->|[->| ->]]]; destruct Hc as [->|[->|[->|[->|[->| ->]]]]];
      try (vm_compute in H; discriminate H); auto.
  - intros [Hout|[Heq|Heq]].
    + cbn [preset_lookup].
      assert (Hnone : OFFICER_PRESET_4X6 !! (row, col) = None); [|rewrite Hnone; reflexivity].
      unfold OFFICER_PRESET_4X6. apply not_elem_of_list_to_map_1. intros Hin. simpl in Hin.
      repeat (apply elem_of_cons in Hin; destruct Hin as [Hin|Hin];
              [injection Hin as ? ?; lia|]).
      apply elem_of_nil in Hin. exact Hin.
    + injection Heq as -> ->. reflexivity.
    + injection Heq as -> ->. reflexivity.
Qed.

(** X15.  Under the officers preset a cell outside rows 1-4 and columns
    1-6, or one of the two excluded slots (2, 6) and (3, 6), is skipped
    before anything is cropped; every other cell is cropped. *)
Theorem officers_preset_filters_before_cropping (args : Args) (env : Env) (img : Sheet)
    (cell_w cell_h r c : Z) (st : State) :
  preset args = preset_officers_4x6 ->
  let row := r + 1 in
  let col := c + 1 in
  let excluded :=
    ~ (1 <= row <= 4 /\ 1 <= col <= 6) \/ (row, col) = (2, 6) \/ (row, col) = (3, 6) in
  (excluded ->
   cell_body args env img cell_w cell_h r c st = Done (incr_skipped_by_preset st)) /\
  (~ excluded ->
   exists rest,
     crop_calls (final_state (cell_body args env img cell_w cell_h r c st))
     = crop_calls st ++ cell_box args cell_w cell_h r c :: rest).
Proof.
  intros Hp row col excluded. split.
  - intros Hex. apply officers_lookup_None in Hex.
    unfold cell_body. rewrite Hp. fold row col. rewrite Hex. reflexivity.
  - intros Hin.
    destruct (preset_lookup preset_officers_4x6 row col) as [mapped|] eqn:E.
    + apply (cell_body_crops args env img cell_w cell_h r c st mapped).
      rewrite Hp. exact E.
    + apply officers_lookup_None in E. contradiction.
Qed.

Lemma officers_preset_filters_before_cropping_witness :
  cell_body officers_args (flat_env 200 1000 600) (flat_sheet 200 1000 600) 151 133 1 5
    initial_state
  = Done (incr_skipped_by_preset initial_state).
Proof.
  apply (proj1 (officers_preset_filters_before_cropping officers_args
                  (flat_env 200 1000 600) (flat_sheet 200 1000 600) 151 133 1 5
                  initial_state eq_refl)).
  right. left. reflexivity.
Defined.

Lemma officer_names_spec (n : string) :
  n ∈ officer_names <-> exists k, OFFICER_PRESET_4X6 !! k = Some (Some n).
Proof.
  unfold officer_names. rewrite elem_of_list_to_set, list_elem_of_omap. split.
  - intros [[k v] [Hin Hv]]. simpl in Hv. subst v.
    exists k. apply elem_of_map_to_list. exact Hin.
  - intros [k Hk]. exists (k, Some n). split; [|reflexivity].
    apply elem_of_map_to_list. exact Hk.
Qed.

Lemma officer_names_size : size officer_names = 22%nat.
Proof. vm_compute. reflexivity. Qed.

(** X16.  Under the officers preset every tile is written under a name of
    the table, whatever the grid and the sheet, and a run that ends
    normally writes at most 22 tiles. *)
Theorem officers_preset_writes_table_names (args : Args) (env : Env) :
  preset args = preset_officers_4x6 ->
  (forall n, n ∈ save_calls (final_state (main args env)) -> n ∈ officer_names) /\
  (forall st, main args env = Done st -> written st <= 22).
Proof.
  intros Hp.
  pose proof (main_inv
    (fun s => (forall n, n ∈ save_calls s -> n ∈ officer_names) /\
              used_names s ⊆ officer_names)
    (fun s => forall n, n ∈ save_calls s -> n ∈ officer_names) args env) as Hinv.
  cbv beta in Hinv.
  assert (Hmain : match main args env with
                  | Done s => (forall n, n ∈ save_calls s -> n ∈ officer_names) /\
                              used_names s ⊆ officer_names
                  | Raised _ s => forall n, n ∈ save_calls s -> n ∈ officer_names
                  end).
  { apply Hinv.
    - split; [intros n Hn; inversion Hn|]. simpl. set_solver.
    - intros n Hn. inversion Hn.
    - intros img cw ch r c s [Hs Hu].
      assert (Hname : forall mapped,
                preset_lookup (preset args) (r + 1) (c + 1) = Some mapped ->
                resolve_filename args mapped r c ∈ officer_names).
      { intros mapped Hl. rewrite Hp in Hl.
        destruct (officers_lookup _ _ _ Hl) as [name [-> [Hne [Hk _]]]].
        rewrite resolve_filename_named by exact Hne.
        apply officer_names_spec. eexists. exact Hk. }
      destruct (cell_body_step args env img cw ch r c s); simpl;
        try (split; assumption); try assumption.
      + intros n Hn. apply elem_of_app in Hn. destruct Hn as [Hn|Hn]; [apply Hs; exact Hn|].
        apply list_elem_of_singleton in Hn. subst n. eapply Hname. eassumption.
      + split.
        * intros n Hn. apply elem_of_app in Hn. destruct Hn as [Hn|Hn]; [apply Hs; exact Hn|].
          apply list_elem_of_singleton in Hn. subst n. eapply Hname. eassumption.
        * apply union_least; [exact Hu|]. apply singleton_subseteq_l.
          eapply Hname. eassumption. }
  split.
  - destruct (main args env); simpl; [apply Hmain|exact Hmain].
  - intros st Hrun. rewrite Hrun in Hmain. destruct Hmain as [_ Hu].
    destruct (main_books_balanced args env st Hrun) as (_ & Hsize & _).
    apply subseteq_size in Hu. rewrite officer_names_size in Hu. lia.
Qed.

Lemma officers_preset_writes_table_names_witness :
  (forall n, n ∈ save_calls (final_state (main officers_args (flat_env 200 1000 600))) ->
     n ∈ officer_names) /\
  (forall st, main officers_args (flat_env 200 1000 600) = Done st -> written st <= 22).
Proof.
  apply (officers_preset_writes_table_names officers_args (flat_env 200 1000 600)).
  reflexivity.
Defined.

(** ** Properties of the narration service *)

Import AiApp.

Lemma template_and_fallback_differ (payload : NarrativeInput) :
  template_text payload <> fallback_text payload.
Proof.
  unfold template_text, fallback_text. intros H.
  repeat (apply (inj (String.append _)) in H).
  discriminate H.
Qed.

Lemma narrate_without_key (cfg : Config) (backend : Backend) (payload : NarrativeInput) :
  OPENAI_API_KEY cfg = "" ->
  narrate cfg backend payload
  = Ok {| text := template_text payload; provider := "template" |}.
Proof. intros H. unfold narrate. rewrite H. reflexivity. Qed.

Lemma narrate_with_key (cfg : Config) (backend : Backend) (payload : NarrativeInput) :
  OPENAI_API_KEY cfg <> "" ->
  narrate cfg backend payload
  = try_except (ask_backend cfg backend (client_of cfg) payload)
      (Ok {| text := fallback_text payload; provider := "template-fallback" |}).
Proof.
  intros H. unfold narrate. destruct (OPENAI_API_KEY cfg) eqn:E; [congruence|].
  unfold client_of. rewrite E. reflexivity.
Qed.



(** C10.  Without an API key, two payloads that agree on actor, action and
    result get the same response, text and provider, whatever their other
    fields and whatever the backend. *)
Theorem template_reply_depends_on_three_fields
    (cfg : Config) (backend1 backend2 : Backend) (p1 p2 : NarrativeInput) :
  OPENAI_API_KEY cfg = "" ->
  actor p1 = actor p2 -> action p1 = action p2 -> result p1 = result p2 ->
  narrate cfg backend1 p1 = narrate cfg backend2 p2.
Proof.
  intros Hkey Ha Hb Hr. rewrite !narrate_without_key by exact Hkey.
  unfold template_text. rewrite Ha, Hb, Hr. reflexivity.
Qed.

Lemma template_reply_depends_on_three_fields_witness :
  narrate keyless_config failing_backend example_payload
  = narrate keyless_config silent_backend other_payload.
Proof.
  apply template_reply_depends_on_three_fields; reflexivity.
Defined.

Example narrate_by_evaluation :
  narrate keyless_config failing_backend example_payload
  = Ok {| text := "Guan Yu의 행동(duel) 결과: victory. 난세의 기록관은 이를 비장한 승전보로 남겼다.";
          provider := "template" |} /\
  narrate example_config silent_backend example_payload
  = Ok {| text := "Guan Yu의 행동(duel) 결과: victory. 기록관은 이를 난세의 전공으로 간결히 남겼다.";
          provider := "template-fallback" |} /\
  narrate example_config (fun _ _ _ => Ok {| choices := [Some "관우가 결투에서 이겼다."] |})
    example_payload
  = Ok {| text := "관우가 결투에서 이겼다."; provider := "openai-compatible" |} /\
  narrate example_config (fun _ _ _ => Ok {| choices := [None] |}) example_payload
  = Ok {| text := "victory"; provider := "openai-compatible" |}.
Proof. repeat split. Qed.

(** ** Further properties of the narration service *)

(** X17.  With a key and a backend that answers, the reply is the content
    of the first choice; a first choice without content, or with the empty
    string as content, gives the payload's result instead, both with
    provider [openai-compatible]; an answer without any choice gives the
    fallback text.  The other choices are never read. *)
Theorem narrate_uses_first_choice
    (cfg : Config) (backend : Backend) (payload : NarrativeInput) (completion : Completion) :
  OPENAI_API_KEY cfg <> "" ->
  backend (client_of cfg) (OPENAI_MODEL cfg)
    [ {| role := "system"; content := system_prompt payload |};
      {| role := "user"; content := user_prompt payload |} ] = Ok completion ->
  narrate cfg backend payload
  = Ok match choices completion with
       | [] => {| text := fallback_text payload; provider := "template-fallback" |}
       | Some (String a s) :: _ => {| text := String a s; provider := "openai-compatible" |}
       | _ :: _ => {| text := result payload; provider := "openai-compatible" |}
       end.
Proof.
  intros Hkey Hans. rewrite narrate_with_key by exact Hkey.
  unfold ask_backend. rewrite Hans. cbn [bind].
  destruct (choices completion) as [|[[|a s]|] rest]; reflexivity.
Qed.

Lemma narrate_uses_first_choice_witness :
  narrate example_config contentless_backend example_payload
  = Ok {| text := result example_payload; provider := "openai-compatible" |}.
Proof.
  apply (narrate_uses_first_choice example_config contentless_backend example_payload
           {| choices := [None; Some "unused"] |}); [discriminate|reflexivity].
Defined.



(** *** Characters of a string *)

Lemma chars_cons (a : ascii) (s : string) :
  exists t cs, chars (String a s) = String a t :: cs.
Proof.
  cbn [chars]. destruct (chars s) as [|[|b c] cs]; try (eexists; eexists; reflexivity).
  destruct (is_continuation b); eexists; eexists; reflexivity.
Qed.

Lemma chars_char_list (s : string) : char_list (chars s).
Proof.
  induction s as [|a s IH]; [exact I|].
  cbn [chars]. destruct (chars s) as [|[|b c] cs].
  - split; [exact I|constructor].
  - destruct IH as [[] _].
  - destruct IH as [Hp Hcs]. cbn [one_char] in Hp.
    destruct (is_continuation b) eqn:E.
    + split; [|exact Hcs]. cbn [one_char all_continuation]. split; assumption.
    + split; [exact I|]. constructor; [|exact Hcs]. split; assumption.
Qed.

Lemma str_append_cons (a : ascii) (s t : string) : String a s +:+ t = String a (s +:+ t).
Proof. reflexivity. Qed.

Lemma str_append_nil_r (s : string) : s +:+ "" = s.
Proof. induction s as [|a s IH]; [reflexivity|]. rewrite str_append_cons, IH. reflexivity. Qed.

Lemma str_concat_cons (p : string) (cs : list string) :
  String.concat "" (p :: cs) = p +:+ String.concat "" cs.
Proof.
  destruct cs as [|q cs]; cbn [String.concat].
  - symmetry. apply str_append_nil_r.
  - reflexivity.
Qed.

(** Joining the characters gives the string back. *)
Lemma concat_chars (s : string) : String.concat "" (chars s) = s.
Proof.
  induction s as [|a s IH]; [reflexivity|].
  cbn [chars]. destruct (chars s) as [|[|b c] cs].
  - cbn in IH |- *. rewrite <- IH. reflexivity.
  - rewrite str_concat_cons in IH |- *. rewrite str_concat_cons.
    rewrite str_append_cons. f_equal. exact IH.
  - rewrite str_concat_cons in IH. destruct (is_continuation b).
    + rewrite str_concat_cons, str_append_cons. f_equal. exact IH.
    + rewrite !str_concat_cons, str_append_cons. f_equal.
      change ("" +:+ String b c +:+ String.concat "" cs) with (String b c +:+ String.concat "" cs).
      exact IH.
Qed.

Lemma chars_continuation_app (t r : string) :
  all_continuation t -> Forall led_char (chars r) ->
  chars (t +:+ r) = match t with EmptyString => chars r | _ => t :: chars r end.
Proof.
  intros Ht Hr. induction t as [|b t IH]; [reflexivity|].
  destruct Ht as [Hb Ht]. specialize (IH Ht).
  rewrite str_append_cons. cbn [chars]. rewrite IH. destruct t as [|b' t'].
  - destruct (chars r) as [|[|x y] cs]; [reflexivity| |].
    + inversion Hr as [|? ? Hx _]; destruct Hx.
    + inversion Hr as [|? ? Hx _]; destruct Hx as [Hx _]. rewrite Hx. reflexivity.
  - destruct Ht as [Hb' _]. rewrite Hb'. reflexivity.
Qed.

(** Cutting a list of characters and joining it changes nothing. *)
Lemma chars_concat (cs : list string) :
  char_list cs -> chars (String.concat "" cs) = cs.
Proof.
  assert (Hled : forall cs, Forall led_char cs ->
            chars (String.concat "" cs) = cs /\ Forall led_char (chars (String.concat "" cs))).
  { induction cs0 as [|p cs0 IH]; intros H; [split; [reflexivity|constructor]|].
    inversion H as [|? ? Hp Hcs]; subst. destruct (IH Hcs) as [IH1 IH2].
    destruct p as [|a t]; [destruct Hp|]. destruct Hp as [Ha Ht].
    assert (Heq : chars (String.concat "" (String a t :: cs0)) = String a t :: cs0).
    { rewrite str_concat_cons, str_append_cons. cbn [chars].
      rewrite (chars_continuation_app t _ Ht IH2), IH1.
      destruct t as [|b t'].
      - destruct cs0 as [|[|x y] cs1]; [reflexivity| |].
        + inversion Hcs as [|? ? Hx _]; destruct Hx.
        + inversion Hcs as [|? ? Hx _]; destruct Hx as [Hx _]. rewrite Hx. reflexivity.
      - destruct Ht as [Hb _]. rewrite Hb. reflexivity. }
    split; [exact Heq|]. rewrite Heq. exact H. }
  destruct cs as [|p cs]; [reflexivity|]. intros [Hp Hcs].
  destruct (Hled cs Hcs) as [IH1 IH2].
  destruct p as [|a t]; [destruct Hp|]. cbn [one_char] in Hp.
  rewrite str_concat_cons, str_append_cons. cbn [chars].
  rewrite (chars_continuation_app t _ Hp IH2), IH1.
  destruct t as [|b t'].
  - destruct cs as [|[|x y] cs1]; [reflexivity| |].
    + inversion Hcs as [|? ? Hx _]; destruct Hx.
    + inversion Hcs as [|? ? Hx _]; destruct Hx as [Hx _]. rewrite Hx. reflexivity.
  - destruct Hp as [Hb _]. rewrite Hb. reflexivity.
Qed.

Lemma char_list_firstn (n : nat) (cs : list string) :
  char_list cs -> char_list (firstn n cs).
Proof.
  destruct cs as [|p cs]; [destruct n; exact (fun H => H)|].
  destruct n as [|n]; [intros _; exact I|].
  intros [Hp Hcs]. split; [exact Hp|]. cbn [firstn].
  apply Forall_take. exact Hcs.
Qed.

(** A slice [s[:n]] has at most [n] characters. *)
Lemma take_chars_length (n : nat) (s : string) :
  (length (chars (take_chars n s)) <= n)%nat.
Proof.
  unfold take_chars. rewrite chars_concat by (apply char_list_firstn, chars_char_list).
  rewrite length_firstn. lia.
Qed.

Lemma take_chars_dash (n : nat) (s : string) :
  (2 <= n)%nat -> String.prefix "- " (take_chars n ("- " +:+ s)) = true.
Proof.
  intros Hn. unfold take_chars.
  change ("- " +:+ s) with (String "-" (String " " s)).
  destruct (chars_cons " " s) as (t & cs & E).
  cbn [chars] in E |- *. rewrite E.
  change (is_continuation " ") with false. cbv iota.
  destruct n as [|[|n]]; [lia|lia|].
  cbn [firstn]. rewrite !str_concat_cons, !str_append_cons.
  change ("" +:+ String " " (t +:+ String.concat "" (take n cs)))
    with (String " " (t +:+ String.concat "" (take n cs))).
  destruct (t +:+ String.concat "" (take n cs)); reflexivity.
Qed.

Lemma omap_length_le {A B} (f : A -> option B) (l : list A) :
  (length (omap f l) <= length l)%nat.
Proof.
  induction l as [|x l IH]; [reflexivity|].
  cbn [omap list_omap]. destruct (f x); cbn [length]; lia.
Qed.

Lemma lore_line_bounded (it : gmap string PyValue) (line : string) :
  lore_line it = Some line ->
  (length (chars line) <= 500)%nat /\ String.prefix "- " line = true.
Proof.
  unfold lore_line.
  destruct (strip (str_of_get (it !! "title"))) as [|a t];
    [destruct (strip (str_of_get (it !! "body"))) as [|b u]; [discriminate|]|];
    intros H; injection H as <-.
  - split; [apply take_chars_length|apply take_chars_dash; lia].
  - split; [apply take_chars_length|].
    change ("- " +:+ String a t +:+ ": " +:+ strip (str_of_get (it !! "body")))
      with ("- " +:+ (String a t +:+ ": " +:+ strip (str_of_get (it !! "body")))).
    apply take_chars_dash; lia.
Qed.


